(** * SolarCoin block primitives: [src/primitives/block.h]

    A shallow embedding of [CBlockHeader], [CBlock] and [CBlockLocator]
    together with the properties their specification states: which bytes
    a block serializes to in each view, what decoding does with them, what
    the identity hash depends on, and how a block is classified as
    proof-of-work or proof-of-stake.

    Integers are [Z] with the wrap-around of their C++ width written out,
    a [uint256] is the little-endian number held by its 32 bytes, a byte
    stream is a [list byte] that a reader consumes from the front. *)

From Stdlib Require Import String ZArith List Lia Bool.
From coqutil Require Import Byte Word.LittleEndianList.
Import ListNotations.
Local Open Scope Z_scope.

(* ================================================================== *)
(** * Evaluation results                                                *)
(* ================================================================== *)

(** A C++ expression either has a value or leaves the language contract
    (indexing a [std::vector] outside [0, size()) is undefined). *)
Inductive result (A : Type) : Type :=
| Ok (a : A)
| UB.
Arguments Ok {A} a.
Arguments UB {A}.

Definition result_bind {A B} (r : result A) (k : A -> result B) : result B :=
  match r with
  | Ok a => k a
  | UB => UB
  end.

Declare Scope result_scope.
Delimit Scope result_scope with result.
Notation "x <- m ;; k" := (result_bind m (fun x => k))
  (at level 61, m at next level, right associativity) : result_scope.

(** [v[i]] on a [std::vector]: no bounds check, defined only below [size()]. *)
Definition vector_index {A} (v : list A) (i : nat) : result A :=
  match nth_error v i with
  | Some x => Ok x
  | None => UB
  end.

(* ================================================================== *)
(** * The stream framework                                              *)
(* ================================================================== *)

(** What a stream carries besides its bytes: [s.GetType()] (the view
    flags) and [s.GetVersion()] (the protocol version). *)
Record StreamParams : Type := {
  GetType : Z;
  GetVersion : Z
}.

(** Reading consumes a prefix of the stream or throws
    ([std::ios_base::failure]); a throw is [None]. *)
Definition Reader (A : Type) : Type := list byte -> option (A * list byte).

Definition ret {A} (a : A) : Reader A := fun s => Some (a, s).

Definition throw {A} : Reader A := fun _ => None.

Definition bind {A B} (m : Reader A) (k : A -> Reader B) : Reader B :=
  fun s =>
    match m s with
    | Some (a, s') => k a s'
    | None => None
    end.

Declare Scope reader_scope.
Delimit Scope reader_scope with reader.
Notation "x <- m ;; k" := (bind m (fun x => k))
  (at level 61, m at next level, right associativity) : reader_scope.

(** Modelled from the spec: [serialize.h] is not among the sources; the
    spec (section 6) has the codec framework supply the primitive
    operations "for fixed-width integers, fixed-width hashes,
    variable-length byte sequences, and length-prefixed sequences of
    serializable values".  [read n] is the stream's [read(pch, n)]:
    it throws when fewer than [n] bytes are left. *)
Definition read (n : nat) : Reader (list byte) :=
  fun s =>
    if (length s <? n)%nat then None
    else Some (firstn n s, skipn n s).

(** Modelled from the spec: the writing side of the "fixed-width
    integers" of [serialize.h] ([ser_writedata8/16/32/64]), least
    significant byte first. *)
Definition ser_writedata (width : nat) (z : Z) : list byte := le_split width z.

(** Modelled from the spec: the reading side of the fixed-width integers
    of [serialize.h]; the value read is unsigned. *)
Definition ser_readdata (width : nat) : Reader Z :=
  (bs <- read width ;; ret (le_combine bs))%reader.

(** Modelled from the spec: a "32-bit signed int" read by [serialize.h];
    the value of a 32-bit pattern stored into an [int32_t]. *)
Definition int32_of_bits (u : Z) : Z :=
  if u <? 2 ^ 31 then u else u - 2 ^ 32.

(** Modelled from the spec: the largest count [serialize.h] reads for a
    "length-prefixed" sequence. *)
Definition MAX_SIZE : Z := 0x02000000.

(** Modelled from the spec: the length prefix of [serialize.h]; one
    byte below 253, else a marker byte and 2, 4 or 8 bytes. *)
Definition WriteCompactSize (nSize : Z) : list byte :=
  if nSize <? 253 then ser_writedata 1 nSize
  else if nSize <=? 0xFFFF then ser_writedata 1 253 ++ ser_writedata 2 nSize
  else if nSize <=? 0xFFFFFFFF then ser_writedata 1 254 ++ ser_writedata 4 nSize
  else ser_writedata 1 255 ++ ser_writedata 8 nSize.

(** Modelled from the spec: reading the length prefix of [serialize.h];
    an encoding longer than needed and a count above [MAX_SIZE] throw. *)
Definition ReadCompactSize : Reader Z :=
  (chSize <- ser_readdata 1 ;;
   nSizeRet <-
     (if chSize <? 253 then ret chSize
      else if chSize =? 253 then
        n <- ser_readdata 2 ;;
        if n <? 253 then throw else ret n
      else if chSize =? 254 then
        n <- ser_readdata 4 ;;
        if n <? 0x10000 then throw else ret n
      else
        n <- ser_readdata 8 ;;
        if n <? 0x100000000 then throw else ret n) ;;
   if MAX_SIZE <? nSizeRet then throw else ret nSizeRet)%reader.

(** A serializable type: what [Serialize(s, a)] appends to the stream,
    what [Unserialize(s, a)] reads from it, and the values the format
    holds without loss. *)
Record Codec (A : Type) : Type := {
  Serialize : StreamParams -> A -> list byte;
  Unserialize : StreamParams -> Reader A;
  Representable : A -> Prop
}.
Arguments Serialize {A} c params a.
Arguments Unserialize {A} c params s.
Arguments Representable {A} c a.

(** Modelled from the spec: "fixed-width integers" of [serialize.h], here
    an [int32_t] on four bytes. *)
Definition int32_codec : Codec Z := {|
  Serialize := fun _ z => ser_writedata 4 z;
  Unserialize := fun _ => (u <- ser_readdata 4 ;; ret (int32_of_bits u))%reader;
  Representable := fun z => - 2 ^ 31 <= z < 2 ^ 31
|}.

(** Modelled from the spec: "fixed-width integers" of [serialize.h], here
    a [uint32_t] on four bytes. *)
Definition uint32_codec : Codec Z := {|
  Serialize := fun _ z => ser_writedata 4 z;
  Unserialize := fun _ => ser_readdata 4;
  Representable := fun z => 0 <= z < 2 ^ 32
|}.

(** Modelled from the spec: "fixed-width hashes" of [uint256.h], the 32
    bytes of a [uint256]. *)
Definition uint256_codec : Codec Z := {|
  Serialize := fun _ z => ser_writedata 32 z;
  Unserialize := fun _ => ser_readdata 32;
  Representable := fun z => 0 <= z < 2 ^ 256
|}.

(** Modelled from the spec: "variable-length byte sequences" of
    [serialize.h], a [std::vector<unsigned char>]: the count, then the
    bytes. *)
Definition bytes_codec : Codec (list byte) := {|
  Serialize := fun _ v => WriteCompactSize (Z.of_nat (length v)) ++ v;
  Unserialize := fun _ => (nSize <- ReadCompactSize ;; read (Z.to_nat nSize))%reader;
  Representable := fun v => Z.of_nat (length v) <= MAX_SIZE
|}.

(** Modelled from the spec: the elements of a "length-prefixed sequence"
    of [serialize.h], written in order. *)
Fixpoint Serialize_elements {A} (c : Codec A) (params : StreamParams) (v : list A)
  : list byte :=
  match v with
  | [] => []
  | a :: v' => Serialize c params a ++ Serialize_elements c params v'
  end.

(** Modelled from the spec: the elements of a "length-prefixed sequence"
    of [serialize.h], read in order, [n] of them. *)
Fixpoint Unserialize_elements {A} (c : Codec A) (params : StreamParams) (n : nat)
  : Reader (list A) :=
  match n with
  | O => ret []
  | S n' =>
      (a <- Unserialize c params ;;
       v <- Unserialize_elements c params n' ;;
       ret (a :: v))%reader
  end.

(** Modelled from the spec: "length-prefixed sequences of serializable
    values" of [serialize.h], a [std::vector<T>]: the count, then each
    element in order.  Reading replaces the vector by [count] elements
    read from the stream. *)
Definition vector_codec {A} (c : Codec A) : Codec (list A) := {|
  Serialize := fun params v =>
    WriteCompactSize (Z.of_nat (length v)) ++ Serialize_elements c params v;
  Unserialize := fun params =>
    (nSize <- ReadCompactSize ;; Unserialize_elements c params (Z.to_nat nSize))%reader;
  Representable := fun v =>
    Z.of_nat (length v) <= MAX_SIZE /\ Forall (Representable c) v
|}.

(* ================================================================== *)
(** * Collaborators of [block.h]                                        *)
(* ================================================================== *)

(** The view flags of [serialize.h] that [block.h] tests; their values
    are not part of the sources and nothing below depends on them. *)
Class SerializeFlags : Type := {
  SER_GETHASH : Z;
  SER_BLOCKHEADERONLY : Z
}.

(** [hash.h] and [crypto/scrypt.h]: the double SHA-256 of a byte range
    and the scrypt hash of an 80-byte header, both as a [uint256]. *)
Class HashFunctions : Type := {
  Hash : list byte -> Z;
  scrypt_1024_1_1_256 : list byte -> Z
}.

(** [primitives/transaction.h]: what [block.h] uses of a transaction. *)
Class Transactions : Type := {
  CTransaction : Type;
  CTxIn : Type;
  COutPoint : Type;
  COutPoint_null : COutPoint;
  prevout : CTxIn -> COutPoint;
  vin : CTransaction -> list CTxIn;
  tx_nTime : CTransaction -> Z;
  IsCoinStake : CTransaction -> bool;
  CTransaction_codec : Codec CTransaction
}.

(** [util.h]: the process-wide arguments and the debug log. *)
Record ArgsManager : Type := {
  GetBoolArg : string -> bool -> bool
}.

Record LogLine : Type := {
  log_nTime : Z;
  log_hashBlock : Z;
  log_nEntropyBit : Z
}.

(** Modelled from the spec: [uint256.h] is not among the sources;
    [GetUint64(pos)] is the [pos]-th 64-bit word of the hash, word 0 being
    "the 64-bit low word". *)
Definition GetUint64 (h : Z) (pos : Z) : Z :=
  Z.shiftr h (64 * pos) mod 2 ^ 64.

(* ================================================================== *)
(** * [class CBlockHeader]                                              *)
(* ================================================================== *)

Definition LEGACY_VERSION_1 : Z := 1.
Definition LEGACY_VERSION_2 : Z := 2.
Definition CURRENT_VERSION : Z := 3.

Record CBlockHeader : Type := {
  nVersion : Z;        (* int32_t *)
  hashPrevBlock : Z;   (* uint256 *)
  hashMerkleRoot : Z;  (* uint256 *)
  nTime : Z;           (* uint32_t *)
  nBits : Z;           (* uint32_t *)
  nNonce : Z           (* uint32_t *)
}.

Definition CBlockHeader_SetNull (this : CBlockHeader) : CBlockHeader := {|
  nVersion := 0;
  hashPrevBlock := 0;
  hashMerkleRoot := 0;
  nTime := 0;
  nBits := 0;
  nNonce := 0
|}.

(** [CBlockHeader()]: [SetNull()] on the new object. *)
Definition CBlockHeader_new : CBlockHeader :=
  CBlockHeader_SetNull {| nVersion := 0; hashPrevBlock := 0; hashMerkleRoot := 0;
                          nTime := 0; nBits := 0; nNonce := 0 |}.

Definition CBlockHeader_IsNull (this : CBlockHeader) : bool :=
  nBits this =? 0.

Definition CBlockHeader_Serialize (params : StreamParams) (this : CBlockHeader)
  : list byte :=
  Serialize int32_codec params (nVersion this)
  ++ Serialize uint256_codec params (hashPrevBlock this)
  ++ Serialize uint256_codec params (hashMerkleRoot this)
  ++ Serialize uint32_codec params (nTime this)
  ++ Serialize uint32_codec params (nBits this)
  ++ Serialize uint32_codec params (nNonce this).

Definition CBlockHeader_Unserialize (params : StreamParams) : Reader CBlockHeader :=
  (nVersion <- Unserialize int32_codec params ;;
   hashPrevBlock <- Unserialize uint256_codec params ;;
   hashMerkleRoot <- Unserialize uint256_codec params ;;
   nTime <- Unserialize uint32_codec params ;;
   nBits <- Unserialize uint32_codec params ;;
   nNonce <- Unserialize uint32_codec params ;;
   ret {| nVersion := nVersion; hashPrevBlock := hashPrevBlock;
          hashMerkleRoot := hashMerkleRoot; nTime := nTime;
          nBits := nBits; nNonce := nNonce |})%reader.

Definition CBlockHeader_codec : Codec CBlockHeader := {|
  Serialize := CBlockHeader_Serialize;
  Unserialize := CBlockHeader_Unserialize;
  Representable := fun h =>
    Representable int32_codec (nVersion h)
    /\ Representable uint256_codec (hashPrevBlock h)
    /\ Representable uint256_codec (hashMerkleRoot h)
    /\ Representable uint32_codec (nTime h)
    /\ Representable uint32_codec (nBits h)
    /\ Representable uint32_codec (nNonce h)
|}.

(** The bytes of the object from [BEGIN(nVersion)] to [END(nNonce)]: the
    six fields are adjacent and the host is little-endian. *)
Definition header_memory (this : CBlockHeader) : list byte :=
  le_split 4 (nVersion this)
  ++ le_split 32 (hashPrevBlock this)
  ++ le_split 32 (hashMerkleRoot this)
  ++ le_split 4 (nTime this)
  ++ le_split 4 (nBits this)
  ++ le_split 4 (nNonce this).

Definition GetBlockTime (this : CBlockHeader) : Z := nTime this.

Section Hashes.
Context {hashes : HashFunctions}.

Definition GetPoWHash (this : CBlockHeader) : Z :=
  scrypt_1024_1_1_256 (header_memory this).

Definition GetHash (this : CBlockHeader) : Z :=
  Hash (header_memory this).
End Hashes.

(* ================================================================== *)
(** * [class CBlock : public CBlockHeader]                              *)
(* ================================================================== *)

Section Block.
Context {flags : SerializeFlags} {hashes : HashFunctions} {txs : Transactions}.

(** [header] is the base-class subobject; a [CTransactionRef] is a
    shared handle on an immutable transaction, held here by value. *)
Record CBlock : Type := {
  header : CBlockHeader;
  vtx : list CTransaction;
  vchBlockSig : list byte;
  fChecked : bool
}.

Definition CBlock_SetNull (this : CBlock) : CBlock := {|
  header := CBlockHeader_SetNull (header this);
  vtx := [];
  vchBlockSig := [];
  fChecked := false
|}.

(** [CBlock()] and [CBlock(const CBlockHeader&)]. *)
Definition CBlock_new : CBlock :=
  CBlock_SetNull {| header := CBlockHeader_new; vtx := []; vchBlockSig := [];
                    fChecked := false |}.

Definition CBlock_of_header (h : CBlockHeader) : CBlock := {|
  header := h;
  vtx := vtx CBlock_new;
  vchBlockSig := vchBlockSig CBlock_new;
  fChecked := fChecked CBlock_new
|}.

(** [SerializationOp] with a writing stream. *)
Definition CBlock_Serialize (params : StreamParams) (this : CBlock) : list byte :=
  Serialize CBlockHeader_codec params (header this)
  ++ (if Z.land (GetType params) (Z.lor SER_GETHASH SER_BLOCKHEADERONLY) =? 0 then
        Serialize (vector_codec CTransaction_codec) params (vtx this)
        ++ (if CURRENT_VERSION <=? nVersion (header this) then
              Serialize bytes_codec params (vchBlockSig this)
            else [])
      else []).

(** [SerializationOp] with a reading stream: the members of [this] that
    are not read keep their value. *)
Definition CBlock_Unserialize (params : StreamParams) (this : CBlock)
  : Reader CBlock :=
  (hdr <- Unserialize CBlockHeader_codec params ;;
   if Z.land (GetType params) (Z.lor SER_GETHASH SER_BLOCKHEADERONLY) =? 0 then
     vtx' <- Unserialize (vector_codec CTransaction_codec) params ;;
     if CURRENT_VERSION <=? nVersion hdr then
       vchBlockSig' <- Unserialize bytes_codec params ;;
       ret {| header := hdr; vtx := vtx'; vchBlockSig := vchBlockSig';
              fChecked := fChecked this |}
     else
       ret {| header := hdr; vtx := vtx'; vchBlockSig := vchBlockSig this;
              fChecked := fChecked this |}
   else
     ret {| header := hdr; vtx := []; vchBlockSig := [];
            fChecked := fChecked this |})%reader.

Definition GetBlockHeader (this : CBlock) : CBlockHeader := {|
  nVersion := nVersion (header this);
  hashPrevBlock := hashPrevBlock (header this);
  hashMerkleRoot := hashMerkleRoot (header this);
  nTime := nTime (header this);
  nBits := nBits (header this);
  nNonce := nNonce (header this)
|}.

(** [GetHash()] called on a block is the inherited method. *)
Definition CBlock_GetHash (this : CBlock) : Z := GetHash (header this).

(** The log is threaded through; the result is an [unsigned int]. *)
Definition GetStakeEntropyBit (gArgs : ArgsManager) (this : CBlock) (nTime : Z)
    (log : list LogLine) : Z * list LogLine :=
  let nEntropyBit := Z.land (GetUint64 (CBlock_GetHash this) 0) 1 mod 2 ^ 32 in
  let log' :=
    if GetBoolArg gArgs "-printstakemodifier" false then
      log ++ [{| log_nTime := nTime; log_hashBlock := CBlock_GetHash this;
                 log_nEntropyBit := nEntropyBit |}]
    else log in
  (nEntropyBit, log').

(** [tx] is bound to [*vtx[1]] before [vtx.size()] is looked at. *)
Definition IsProofOfStake (this : CBlock) : result bool :=
  (tx <- vector_index (vtx this) 1 ;;
   Ok ((1 <? length (vtx this))%nat && IsCoinStake tx))%result.

Definition IsProofOfWork (this : CBlock) : result bool :=
  (pos <- IsProofOfStake this ;; Ok (negb pos))%result.

Definition GetProofOfStake (this : CBlock) : result (COutPoint * Z) :=
  (tx <- vector_index (vtx this) 1 ;;
   pos <- IsProofOfStake this ;;
   if pos then
     txin <- vector_index (vin tx) 0 ;;
     Ok (prevout txin, tx_nTime tx)
   else Ok (COutPoint_null, 0))%result.
End Block.

(* ================================================================== *)
(** * [struct CBlockLocator]                                            *)
(* ================================================================== *)

Record CBlockLocator : Type := {
  vHave : list Z   (* std::vector<uint256> *)
}.

(** [CBlockLocator()] and [CBlockLocator(const std::vector<uint256>&)]. *)
Definition CBlockLocator_new : CBlockLocator := {| vHave := [] |}.

Definition CBlockLocator_of (vHaveIn : list Z) : CBlockLocator :=
  {| vHave := vHaveIn |}.

Definition CBlockLocator_SetNull (this : CBlockLocator) : CBlockLocator :=
  {| vHave := [] |}.

Definition CBlockLocator_IsNull (this : CBlockLocator) : bool :=
  match vHave this with
  | [] => true
  | _ :: _ => false
  end.

Section Locator.
Context {flags : SerializeFlags}.

Definition CBlockLocator_Serialize (params : StreamParams) (this : CBlockLocator)
  : list byte :=
  let nVersion := GetVersion params in
  (if Z.land (GetType params) SER_GETHASH =? 0 then
     Serialize int32_codec params nVersion
   else [])
  ++ Serialize (vector_codec uint256_codec) params (vHave this).

(** The version that is read lands in the local [nVersion] and is
    dropped with it. *)
Definition CBlockLocator_Unserialize (params : StreamParams) (this : CBlockLocator)
  : Reader CBlockLocator :=
  let nVersion := GetVersion params in
  (nVersion <- (if Z.land (GetType params) SER_GETHASH =? 0 then
                  Unserialize int32_codec params
                else ret nVersion) ;;
   vHave' <- Unserialize (vector_codec uint256_codec) params ;;
   ret {| vHave := vHave' |})%reader.
End Locator.

(* ================================================================== *)
(** * What it means for a reader to decode an encoding                  *)
(* ================================================================== *)

(** [p] is [s] cut short. *)
Definition strict_prefix (p s : list byte) : Prop :=
  exists q, q <> [] /\ s = p ++ q.

(** [r] decodes [bs] to [a]: whatever follows [bs] in the stream, [r]
    returns [a] and leaves exactly what follows. *)
Definition Decodes {A} (r : Reader A) (a : A) (bs : list byte) : Prop :=
  forall rest, r (bs ++ rest) = Some (a, rest).

(** [r] throws on [bs] cut short. *)
Definition Rejects_truncated {A} (r : Reader A) (bs : list byte) : Prop :=
  forall p, strict_prefix p bs -> r p = None.

(** [bs] is an encoding of [a] for the reader [r]. *)
Definition Encodes {A} (r : Reader A) (a : A) (bs : list byte) : Prop :=
  Decodes r a bs /\ Rejects_truncated r bs.

(** A codec reads back what it writes. *)
Definition Roundtrips {A} (c : Codec A) : Prop :=
  forall params a,
    Representable c a -> Decodes (Unserialize c params) a (Serialize c params a).

(** A codec reads back what it writes and throws on what it wrote cut
    short. *)
Definition Lawful {A} (c : Codec A) : Prop :=
  forall params a,
    Representable c a -> Encodes (Unserialize c params) a (Serialize c params a).

(** A block whose members fit their wire format. *)
Definition CBlock_Representable {txs : Transactions} (b : CBlock) : Prop :=
  Representable CBlockHeader_codec (header b)
  /\ Representable (vector_codec CTransaction_codec) (vtx b)
  /\ Representable bytes_codec (vchBlockSig b).

(** The invariant of the data model: no signature below
    [CURRENT_VERSION]. *)
Definition signature_licensed {txs : Transactions} (b : CBlock) : Prop :=
  nVersion (header b) < CURRENT_VERSION -> vchBlockSig b = [].

(** What reading a full-view encoding of [b] into [this] gives: the
    header and the transactions of [b]; its signature from
    [CURRENT_VERSION] on, and below it the signature [this] had. *)
Definition full_view_decoded {txs : Transactions} (b this : CBlock) : CBlock := {|
  header := header b;
  vtx := vtx b;
  vchBlockSig := if CURRENT_VERSION <=? nVersion (header b)
                 then vchBlockSig b else vchBlockSig this;
  fChecked := fChecked this
|}.

(* ================================================================== *)
(** * Instances to run the definitions on                               *)
(* ================================================================== *)

Module Sample.

(** [SER_NETWORK], [SER_DISK], [SER_GETHASH] as in Bitcoin's
    [serialize.h]; a header-only flag above them. *)
Definition SER_NETWORK : Z := Z.shiftl 1 0.
Definition SER_DISK : Z := Z.shiftl 1 1.

Definition flags : SerializeFlags := {|
  SER_GETHASH := Z.shiftl 1 2;
  SER_BLOCKHEADERONLY := Z.shiftl 1 17
|}.

Definition network : StreamParams := {| GetType := SER_NETWORK; GetVersion := 70015 |}.
Definition gethash : StreamParams := {| GetType := Z.shiftl 1 2; GetVersion := 70015 |}.

(** A polynomial checksum stands in for the two hash functions. *)
Definition checksum (base : Z) (bs : list byte) : Z :=
  fold_left (fun acc b => (acc * base + byte.unsigned b) mod 2 ^ 256) bs 0.

Definition hashes : HashFunctions := {|
  Hash := checksum 257;
  scrypt_1024_1_1_256 := checksum 263
|}.

(** A transaction reduced to its timestamp and the output indices its
    inputs spend; it is a stake when its first input spends a real
    output ([0xFFFFFFFF] marks the null outpoint). *)
Definition Tx : Type := (Z * list Z)%type.

Definition Tx_codec : Codec Tx := {|
  Serialize := fun params t =>
    Serialize uint32_codec params (fst t)
    ++ Serialize (vector_codec uint32_codec) params (snd t);
  Unserialize := fun params =>
    (time <- Unserialize uint32_codec params ;;
     ins <- Unserialize (vector_codec uint32_codec) params ;;
     ret (time, ins))%reader;
  Representable := fun t =>
    Representable uint32_codec (fst t)
    /\ Representable (vector_codec uint32_codec) (snd t)
|}.

Definition txs : Transactions := {|
  CTransaction := Tx;
  CTxIn := Z;
  COutPoint := Z;
  COutPoint_null := 0xFFFFFFFF;
  prevout := fun txin => txin;
  vin := snd;
  tx_nTime := fst;
  IsCoinStake := fun t =>
    match snd t with
    | [] => false
    | n :: _ => negb (n =? 0xFFFFFFFF)
    end;
  CTransaction_codec := Tx_codec
|}.

Definition coinbase : Tx := (1231006505, [0xFFFFFFFF]).
Definition coinstake : Tx := (1231006506, [7]).

Definition genesis_header : CBlockHeader := {|
  nVersion := 3;
  hashPrevBlock := 0;
  hashMerkleRoot := 0x4a5e1e4baab89f3a32518a88c31bc87f618f76673e2cc77ab2127b7afdeda33b;
  nTime := 1231006505;
  nBits := 0x1d00ffff;
  nNonce := 2083236893
|}.

Definition legacy_header : CBlockHeader := {|
  nVersion := LEGACY_VERSION_1;
  hashPrevBlock := 0;
  hashMerkleRoot := 5;
  nTime := 1231006505;
  nBits := 0x1d00ffff;
  nNonce := 42
|}.

Definition block (h : CBlockHeader) (v : list Tx) (sig : list byte)
  : @CBlock txs :=
  @Build_CBlock txs h v sig false.

(** A proof-of-stake block, a coinbase-only block, and a legacy block
    that carries a signature it is not entitled to. *)
Definition stake_block : @CBlock txs :=
  block genesis_header [coinbase; coinstake] [Byte.xaa; Byte.xbb].
Definition work_block : @CBlock txs :=
  block legacy_header [coinbase] [].
Definition legacy_signed_block : @CBlock txs :=
  block legacy_header [coinbase] [Byte.xaa].

Definition logging (on : bool) : ArgsManager :=
  {| GetBoolArg := fun name fDefault =>
       if String.eqb name "-printstakemodifier" then on else fDefault |}.

End Sample.

(* ================================================================== *)
(** * Readers and encodings                                             *)
(* ================================================================== *)

Section ReaderLaws.

Lemma strict_prefix_nil_r (p : list byte) : ~ strict_prefix p [].
Proof.
  intros (q & Hq & Heq). symmetry in Heq.
  apply app_eq_nil in Heq. tauto.
Qed.

Lemma strict_prefix_length (p s : list byte) :
  strict_prefix p s -> (length p < length s)%nat.
Proof.
  intros (q & Hq & ->). rewrite length_app.
  destruct q; [congruence | simpl; lia].
Qed.

(** An encoding made of two parts is cut either inside the first part or
    after it. *)
Lemma strict_prefix_app (p x y : list byte) :
  strict_prefix p (x ++ y) ->
  strict_prefix p x \/ exists q, p = x ++ q /\ strict_prefix q y.
Proof.
  intros (q & Hq & Heq).
  apply app_eq_app in Heq. destruct Heq as (l & [[Hx Hy] | [Hp Hy]]).
  - destruct l as [|c l].
    + right. exists []. rewrite app_nil_r in Hx. subst.
      rewrite app_nil_r. split; [reflexivity|].
      exists y. split; [assumption | reflexivity].
    + left. exists (c :: l). split; [discriminate | assumption].
  - right. exists l. split; [assumption|].
    exists q. split; assumption.
Qed.

Lemma Decodes_ret {A} (a : A) : Decodes (ret a) a [].
Proof. intros rest. reflexivity. Qed.

(** Sequencing: what [m] reads, then what the continuation reads. *)
Lemma Decodes_bind {A B} (m : Reader A) (k : A -> Reader B) a b x y :
  Decodes m a x -> Decodes (k a) b y -> Decodes (bind m k) b (x ++ y).
Proof.
  intros Hm Hk rest. unfold bind. rewrite <- app_assoc, Hm. apply Hk.
Qed.

Lemma Decodes_bind_nil {A B} (m : Reader A) (k : A -> Reader B) a b x :
  Decodes m a x -> Decodes (k a) b [] -> Decodes (bind m k) b x.
Proof.
  intros Hm Hk. rewrite <- (app_nil_r x). now apply Decodes_bind with (a := a).
Qed.

Lemma Encodes_ret {A} (a : A) : Encodes (ret a) a [].
Proof.
  split.
  - apply Decodes_ret.
  - intros p Hp. now apply strict_prefix_nil_r in Hp.
Qed.

(** Sequencing keeps the rejection of cut streams: the cut falls in the
    first part, or the first part is read and the cut falls later. *)
Lemma Encodes_bind {A B} (m : Reader A) (k : A -> Reader B) a b x y :
  Encodes m a x -> Encodes (k a) b y -> Encodes (bind m k) b (x ++ y).
Proof.
  intros [Hm Hm'] [Hk Hk']. split.
  - now apply Decodes_bind with (a := a).
  - intros p Hp. unfold bind.
    apply strict_prefix_app in Hp. destruct Hp as [Hp | (q & -> & Hq)].
    + now rewrite (Hm' _ Hp).
    + rewrite Hm. now apply Hk'.
Qed.

Lemma Encodes_bind_nil {A B} (m : Reader A) (k : A -> Reader B) a b x :
  Encodes m a x -> Encodes (k a) b [] -> Encodes (bind m k) b x.
Proof.
  intros Hm Hk. rewrite <- (app_nil_r x). now apply Encodes_bind with (a := a).
Qed.

Lemma Encodes_read (bs : list byte) : Encodes (read (length bs)) bs bs.
Proof.
  split.
  - intros rest. unfold read.
    destruct (Nat.ltb_spec (length (bs ++ rest)) (length bs)) as [Hlt | _].
    + rewrite length_app in Hlt. lia.
    + rewrite firstn_app, Nat.sub_diag, firstn_all, skipn_app, Nat.sub_diag,
        skipn_all. simpl. now rewrite app_nil_r.
  - intros p Hp. apply strict_prefix_length in Hp. unfold read.
    destruct (Nat.ltb_spec (length p) (length bs)); [reflexivity | lia].
Qed.

Lemma Encodes_ser_readdata (width : nat) (z : Z) :
  0 <= z < 2 ^ (Z.of_nat width * 8) ->
  Encodes (ser_readdata width) z (ser_writedata width z).
Proof.
  intros Hz. unfold ser_readdata, ser_writedata.
  apply Encodes_bind_nil with (a := le_split width z).
  - rewrite <- (length_le_split width z) at 1. apply Encodes_read.
  - rewrite le_combine_split, Z.mod_small by assumption. apply Encodes_ret.
Qed.

Lemma Lawful_Roundtrips {A} (c : Codec A) : Lawful c -> Roundtrips c.
Proof. intros Hc params a Ha. now apply Hc. Qed.

End ReaderLaws.

(* ================================================================== *)
(** * The primitive codecs are lawful                                   *)
(* ================================================================== *)

Section PrimitiveLaws.

Lemma int32_of_bits_mod (z : Z) :
  - 2 ^ 31 <= z < 2 ^ 31 -> int32_of_bits (z mod 2 ^ 32) = z.
Proof.
  intros Hz. unfold int32_of_bits.
  destruct (Z.ltb_spec (z mod 2 ^ 32) (2 ^ 31)) as [Hlt | Hge].
  - destruct (Z_lt_le_dec z 0) as [Hneg | Hpos].
    + rewrite <- (Z_mod_plus_full z 1 (2 ^ 32)) in Hlt.
      rewrite Z.mod_small in Hlt by lia. lia.
    + apply Z.mod_small. lia.
  - destruct (Z_lt_le_dec z 0) as [Hneg | Hpos].
    + rewrite <- (Z_mod_plus_full z 1 (2 ^ 32)).
      rewrite Z.mod_small by lia. lia.
    + rewrite Z.mod_small in Hge by lia. lia.
Qed.

Lemma int32_codec_lawful : Lawful int32_codec.
Proof.
  intros params z Hz. simpl in *. unfold ser_readdata, ser_writedata.
  apply Encodes_bind_nil with (a := z mod 2 ^ 32).
  - apply Encodes_bind_nil with (a := le_split 4 z).
    + rewrite <- (length_le_split 4 z) at 1. apply Encodes_read.
    + rewrite le_combine_split. apply Encodes_ret.
  - rewrite int32_of_bits_mod by assumption. apply Encodes_ret.
Qed.

Lemma uint32_codec_lawful : Lawful uint32_codec.
Proof. intros params z Hz. now apply (Encodes_ser_readdata 4). Qed.

Lemma uint256_codec_lawful : Lawful uint256_codec.
Proof. intros params z Hz. now apply (Encodes_ser_readdata 32). Qed.

End PrimitiveLaws.

Section SequenceLaws.

(** The count of a sequence: every count up to [MAX_SIZE] is written in
    its shortest form and read back. *)
Lemma Encodes_ReadCompactSize (n : Z) :
  0 <= n <= MAX_SIZE -> Encodes ReadCompactSize n (WriteCompactSize n).
Proof.
  unfold MAX_SIZE. intros Hn. unfold ReadCompactSize, WriteCompactSize.
  assert (Hmax : (MAX_SIZE <? n) = false) by (apply Z.ltb_ge; unfold MAX_SIZE; lia).
  destruct (Z.ltb_spec n 253) as [H253 | H253].
  - apply Encodes_bind_nil with (a := n).
    + apply (Encodes_ser_readdata 1). simpl; lia.
    + apply Z.ltb_lt in H253. rewrite H253.
      apply Encodes_bind_nil with (a := n); [apply Encodes_ret|].
      rewrite Hmax. apply Encodes_ret.
  - destruct (Z.leb_spec n 0xFFFF) as [H16 | H16].
    + apply Encodes_bind with (a := 253).
      * apply (Encodes_ser_readdata 1). simpl; lia.
      * change (253 <? 253) with false. change (253 =? 253) with true. cbv iota.
        apply Encodes_bind_nil with (a := n).
        -- apply Encodes_bind_nil with (a := n).
           ++ apply (Encodes_ser_readdata 2). simpl; lia.
           ++ apply Z.ltb_ge in H253. rewrite H253. apply Encodes_ret.
        -- rewrite Hmax. apply Encodes_ret.
    + assert (H32 : (n <=? 0xFFFFFFFF) = true) by (apply Z.leb_le; lia).
      rewrite H32.
      apply Encodes_bind with (a := 254).
      * apply (Encodes_ser_readdata 1). simpl; lia.
      * change (254 <? 253) with false. change (254 =? 253) with false.
        change (254 =? 254) with true. cbv iota.
        apply Encodes_bind_nil with (a := n).
        -- apply Encodes_bind_nil with (a := n).
           ++ apply (Encodes_ser_readdata 4). simpl; lia.
           ++ assert (H64k : (n <? 0x10000) = false) by (apply Z.ltb_ge; lia).
              rewrite H64k. apply Encodes_ret.
        -- rewrite Hmax. apply Encodes_ret.
Qed.

Lemma WriteCompactSize_nonempty (n : Z) : WriteCompactSize n <> [].
Proof.
  unfold WriteCompactSize.
  destruct (n <? 253); [|destruct (n <=? 0xFFFF); [|destruct (n <=? 0xFFFFFFFF)]];
    discriminate.
Qed.

Lemma WriteCompactSize_nonempty_app (n : Z) (bs : list byte) :
  WriteCompactSize n ++ bs <> [].
Proof.
  intros H. apply app_eq_nil in H. now apply (WriteCompactSize_nonempty n).
Qed.

Lemma bytes_codec_lawful : Lawful bytes_codec.
Proof.
  intros params v Hv. simpl in *.
  apply Encodes_bind with (a := Z.of_nat (length v)).
  - apply Encodes_ReadCompactSize. lia.
  - rewrite Nat2Z.id. apply Encodes_read.
Qed.

Context {A : Type} (c : Codec A).

(** The elements of a vector, one after the other. *)
Lemma Decodes_elements params (v : list A) :
  Roundtrips c ->
  Forall (Representable c) v ->
  Decodes (Unserialize_elements c params (length v)) v (Serialize_elements c params v).
Proof.
  intros Hc. induction 1 as [|a v Ha Hv IH]; simpl.
  - apply Decodes_ret.
  - apply Decodes_bind with (a := a); [now apply Hc|].
    apply Decodes_bind_nil with (a := v); [exact IH | apply Decodes_ret].
Qed.

Lemma Encodes_elements params (v : list A) :
  Lawful c ->
  Forall (Representable c) v ->
  Encodes (Unserialize_elements c params (length v)) v (Serialize_elements c params v).
Proof.
  intros Hc. induction 1 as [|a v Ha Hv IH]; simpl.
  - apply Encodes_ret.
  - apply Encodes_bind with (a := a); [now apply Hc|].
    apply Encodes_bind_nil with (a := v); [exact IH | apply Encodes_ret].
Qed.

Lemma vector_codec_roundtrips : Roundtrips c -> Roundtrips (vector_codec c).
Proof.
  intros Hc params v [Hlen Hall]. simpl.
  apply Decodes_bind with (a := Z.of_nat (length v)).
  - apply Encodes_ReadCompactSize. lia.
  - rewrite Nat2Z.id. now apply Decodes_elements.
Qed.

Lemma vector_codec_lawful : Lawful c -> Lawful (vector_codec c).
Proof.
  intros Hc params v [Hlen Hall]. simpl.
  apply Encodes_bind with (a := Z.of_nat (length v)).
  - apply Encodes_ReadCompactSize. lia.
  - rewrite Nat2Z.id. now apply Encodes_elements.
Qed.

End SequenceLaws.

Section HeaderLaws.

Lemma CBlockHeader_codec_lawful : Lawful CBlockHeader_codec.
Proof.
  intros params [v p m t b n] (Hv & Hp & Hm & Ht & Hb & Hn).
  change (Encodes (CBlockHeader_Unserialize params)
            (Build_CBlockHeader v p m t b n)
            (CBlockHeader_Serialize params (Build_CBlockHeader v p m t b n))).
  unfold CBlockHeader_Serialize, CBlockHeader_Unserialize.
  cbn [nVersion hashPrevBlock hashMerkleRoot nTime nBits nNonce] in *.
  apply Encodes_bind with (a := v); [now apply int32_codec_lawful|].
  apply Encodes_bind with (a := p); [now apply uint256_codec_lawful|].
  apply Encodes_bind with (a := m); [now apply uint256_codec_lawful|].
  apply Encodes_bind with (a := t); [now apply uint32_codec_lawful|].
  apply Encodes_bind with (a := b); [now apply uint32_codec_lawful|].
  apply Encodes_bind_nil with (a := n); [now apply uint32_codec_lawful|].
  apply Encodes_ret.
Qed.

(** A header is always 80 bytes on the wire, whatever the view, and
    they are the bytes of the object in memory. *)
Lemma CBlockHeader_Serialize_length params (h : CBlockHeader) :
  length (CBlockHeader_Serialize params h) = 80%nat.
Proof.
  unfold CBlockHeader_Serialize.
  cbn [Serialize int32_codec uint32_codec uint256_codec]. unfold ser_writedata.
  rewrite !length_app, !length_le_split. reflexivity.
Qed.

Lemma CBlockHeader_Serialize_memory params (h : CBlockHeader) :
  CBlockHeader_Serialize params h = header_memory h.
Proof. reflexivity. Qed.

(** Any 80 bytes are the encoding of some header. *)
Lemma CBlockHeader_Serialize_onto params (bs : list byte) :
  length bs = 80%nat ->
  exists h, Representable CBlockHeader_codec h /\ CBlockHeader_Serialize params h = bs.
Proof.
  intros Hlen.
  set (f1 := firstn 4 bs). set (r1 := skipn 4 bs).
  set (f2 := firstn 32 r1). set (r2 := skipn 32 r1).
  set (f3 := firstn 32 r2). set (r3 := skipn 32 r2).
  set (f4 := firstn 4 r3). set (r4 := skipn 4 r3).
  set (f5 := firstn 4 r4). set (f6 := skipn 4 r4).
  assert (L1 : length f1 = 4%nat) by (subst f1; rewrite length_firstn; lia).
  assert (R1 : length r1 = 76%nat) by (subst r1; rewrite length_skipn; lia).
  assert (L2 : length f2 = 32%nat) by (subst f2; rewrite length_firstn; lia).
  assert (R2 : length r2 = 44%nat) by (subst r2; rewrite length_skipn; lia).
  assert (L3 : length f3 = 32%nat) by (subst f3; rewrite length_firstn; lia).
  assert (R3 : length r3 = 12%nat) by (subst r3; rewrite length_skipn; lia).
  assert (L4 : length f4 = 4%nat) by (subst f4; rewrite length_firstn; lia).
  assert (R4 : length r4 = 8%nat) by (subst r4; rewrite length_skipn; lia).
  assert (L5 : length f5 = 4%nat) by (subst f5; rewrite length_firstn; lia).
  assert (L6 : length f6 = 4%nat) by (subst f6; rewrite length_skipn; lia).
  assert (Hbs : bs = f1 ++ f2 ++ f3 ++ f4 ++ f5 ++ f6).
  { subst f1 f2 f3 f4 f5 f6 r4 r3 r2 r1. now rewrite !firstn_skipn. }
  exists {| nVersion := int32_of_bits (le_combine f1);
            hashPrevBlock := le_combine f2;
            hashMerkleRoot := le_combine f3;
            nTime := le_combine f4;
            nBits := le_combine f5;
            nNonce := le_combine f6 |}.
  pose proof (le_combine_bound f1) as B1. pose proof (le_combine_bound f2) as B2.
  pose proof (le_combine_bound f3) as B3. pose proof (le_combine_bound f4) as B4.
  pose proof (le_combine_bound f5) as B5. pose proof (le_combine_bound f6) as B6.
  rewrite L1 in B1. rewrite L2 in B2. rewrite L3 in B3.
  rewrite L4 in B4. rewrite L5 in B5. rewrite L6 in B6.
  change (2 ^ (8 * Z.of_nat 4)) with (2 ^ 32) in *.
  change (2 ^ (8 * Z.of_nat 32)) with (2 ^ 256) in *.
  split.
  - cbn [Representable CBlockHeader_codec int32_codec uint32_codec uint256_codec
           nVersion hashPrevBlock hashMerkleRoot nTime nBits nNonce].
    unfold int32_of_bits.
    destruct (Z.ltb_spec (le_combine f1) (2 ^ 31)); repeat split; lia.
  - unfold CBlockHeader_Serialize.
    cbn [Serialize int32_codec uint32_codec uint256_codec
           nVersion hashPrevBlock hashMerkleRoot nTime nBits nNonce].
    unfold ser_writedata.
    rewrite Hbs. repeat f_equal.
    + rewrite le_split_mod.
      replace (int32_of_bits (le_combine f1) mod 2 ^ (Z.of_nat 4 * 8))
        with (le_combine f1).
      * now apply split_le_combine'.
      * change (2 ^ (Z.of_nat 4 * 8)) with (2 ^ 32). unfold int32_of_bits.
        destruct (Z.ltb_spec (le_combine f1) (2 ^ 31)).
        -- symmetry. apply Z.mod_small. lia.
        -- rewrite <- (Z_mod_plus_full _ 1 (2 ^ 32)).
           symmetry. rewrite Z.mod_small; lia.
    + now apply split_le_combine'.
    + now apply split_le_combine'.
    + now apply split_le_combine'.
    + now apply split_le_combine'.
    + now apply split_le_combine'.
Qed.

(** Reading a header succeeds exactly when 80 bytes are there, and
    consumes those 80 bytes. *)
Lemma CBlockHeader_Unserialize_total params (s : list byte) :
  (80 <= length s)%nat ->
  exists h, CBlockHeader_Unserialize params s = Some (h, skipn 80 s).
Proof.
  intros Hlen.
  destruct (CBlockHeader_Serialize_onto params (firstn 80 s)) as (h & Hh & Henc).
  { rewrite length_firstn. lia. }
  exists h. rewrite <- (firstn_skipn 80 s) at 1. rewrite <- Henc.
  apply (CBlockHeader_codec_lawful params h Hh).
Qed.

Lemma CBlockHeader_Unserialize_short params (s : list byte) :
  (length s < 80)%nat -> CBlockHeader_Unserialize params s = None.
Proof.
  intros Hlen.
  destruct (CBlockHeader_Serialize_onto params (s ++ repeat Byte.x00 (80 - length s)))
    as (h & Hh & Henc).
  { rewrite length_app, repeat_length. lia. }
  apply (CBlockHeader_codec_lawful params h Hh).
  exists (repeat Byte.x00 (80 - length s)). split.
  - destruct (80 - length s)%nat eqn:E; [lia | discriminate].
  - exact Henc.
Qed.

End HeaderLaws.

(* ================================================================== *)
(** * [CBlock]: serialization views                                     *)
(* ================================================================== *)

Section BlockSerialization.
Context {flags : SerializeFlags} {txs : Transactions}.

Lemma CBlock_Decodes_full params (b this : CBlock) :
  Roundtrips CTransaction_codec ->
  Z.land (GetType params) (Z.lor SER_GETHASH SER_BLOCKHEADERONLY) = 0 ->
  Representable CBlockHeader_codec (header b) ->
  Representable (vector_codec CTransaction_codec) (vtx b) ->
  (CURRENT_VERSION <= nVersion (header b) ->
   Representable bytes_codec (vchBlockSig b)) ->
  Decodes (CBlock_Unserialize params this) (full_view_decoded b this)
    (CBlock_Serialize params b).
Proof.
  intros Htx Hview Hhdr Hvtx Hsig.
  unfold CBlock_Serialize, CBlock_Unserialize, full_view_decoded.
  apply Z.eqb_eq in Hview. rewrite Hview.
  apply Decodes_bind with (a := header b).
  { now apply CBlockHeader_codec_lawful. }
  apply Decodes_bind with (a := vtx b).
  { now apply vector_codec_roundtrips. }
  destruct (Z.leb_spec CURRENT_VERSION (nVersion (header b))) as [Hcur | Hleg].
  - apply Decodes_bind_nil with (a := vchBlockSig b); [|apply Decodes_ret].
    apply bytes_codec_lawful. now apply Hsig.
  - apply Decodes_ret.
Qed.

Lemma CBlock_Encodes_full params (b this : CBlock) :
  Lawful CTransaction_codec ->
  Z.land (GetType params) (Z.lor SER_GETHASH SER_BLOCKHEADERONLY) = 0 ->
  Representable CBlockHeader_codec (header b) ->
  Representable (vector_codec CTransaction_codec) (vtx b) ->
  (CURRENT_VERSION <= nVersion (header b) ->
   Representable bytes_codec (vchBlockSig b)) ->
  Encodes (CBlock_Unserialize params this) (full_view_decoded b this)
    (CBlock_Serialize params b).
Proof.
  intros Htx Hview Hhdr Hvtx Hsig.
  unfold CBlock_Serialize, CBlock_Unserialize, full_view_decoded.
  apply Z.eqb_eq in Hview. rewrite Hview.
  apply Encodes_bind with (a := header b).
  { now apply CBlockHeader_codec_lawful. }
  apply Encodes_bind with (a := vtx b).
  { now apply vector_codec_lawful. }
  destruct (Z.leb_spec CURRENT_VERSION (nVersion (header b))) as [Hcur | Hleg].
  - apply Encodes_bind_nil with (a := vchBlockSig b); [|apply Encodes_ret].
    apply bytes_codec_lawful. now apply Hsig.
  - apply Encodes_ret.
Qed.

(** Below [CURRENT_VERSION] the decoder leaves [vchBlockSig] alone: read
    into an object that held a signature, a legacy block keeps it. *)
Lemma CBlock_Unserialize_legacy_keeps_signature params (b this : CBlock) rest :
  Roundtrips CTransaction_codec ->
  Z.land (GetType params) (Z.lor SER_GETHASH SER_BLOCKHEADERONLY) = 0 ->
  Representable CBlockHeader_codec (header b) ->
  Representable (vector_codec CTransaction_codec) (vtx b) ->
  nVersion (header b) < CURRENT_VERSION ->
  exists b',
    CBlock_Unserialize params this (CBlock_Serialize params b ++ rest) = Some (b', rest)
    /\ vchBlockSig b' = vchBlockSig this.
Proof.
  intros Htx Hview Hhdr Hvtx Hleg.
  eexists. split.
  - apply CBlock_Decodes_full; try assumption. intros Hcur. lia.
  - cbn [vchBlockSig full_view_decoded].
    apply Z.leb_gt in Hleg. now rewrite Hleg.
Qed.

Lemma CBlock_Serialize_header_only params (b : CBlock) :
  Z.land (GetType params) (Z.lor SER_GETHASH SER_BLOCKHEADERONLY) <> 0 ->
  CBlock_Serialize params b = CBlockHeader_Serialize params (header b).
Proof.
  intros Hview. unfold CBlock_Serialize.
  apply Z.eqb_neq in Hview. rewrite Hview. apply app_nil_r.
Qed.

Lemma CBlock_Unserialize_header_only params (this : CBlock) (s : list byte) :
  Z.land (GetType params) (Z.lor SER_GETHASH SER_BLOCKHEADERONLY) <> 0 ->
  CBlock_Unserialize params this s =
    match CBlockHeader_Unserialize params s with
    | Some (hdr, rest) =>
        Some ({| header := hdr; vtx := []; vchBlockSig := [];
                 fChecked := fChecked this |}, rest)
    | None => None
    end.
Proof.
  intros Hview. unfold CBlock_Unserialize, bind.
  apply Z.eqb_neq in Hview. rewrite Hview.
  change (Unserialize CBlockHeader_codec params s)
    with (CBlockHeader_Unserialize params s).
  now destruct (CBlockHeader_Unserialize params s) as [[hdr rest]|].
Qed.

(** ** Round trip of the full view *)

(** C3. Full (network/disk) view: a block whose members fit the wire
    format and that carries no signature below [CURRENT_VERSION] is read
    back, into a new [CBlock], from the bytes it was written to, with
    the same six header fields, the same transactions in the same order
    and the same signature; what follows the block in the stream is
    left there. *)
Theorem CBlock_full_view_roundtrip params (b : CBlock) (rest : list byte) :
  Roundtrips CTransaction_codec ->
  Z.land (GetType params) (Z.lor SER_GETHASH SER_BLOCKHEADERONLY) = 0 ->
  CBlock_Representable b ->
  signature_licensed b ->
  exists b',
    CBlock_Unserialize params CBlock_new (CBlock_Serialize params b ++ rest)
      = Some (b', rest)
    /\ header b' = header b
    /\ vtx b' = vtx b
    /\ vchBlockSig b' = vchBlockSig b.
Proof.
  intros Htx Hview (Hhdr & Hvtx & Hsig) Hlic.
  exists (full_view_decoded b CBlock_new). split.
  - now apply CBlock_Decodes_full.
  - cbn [header vtx vchBlockSig full_view_decoded]. repeat split.
    destruct (Z.leb_spec CURRENT_VERSION (nVersion (header b))) as [Hcur | Hleg].
    + reflexivity.
    + symmetry. now apply Hlic.
Qed.

(** ** Version gating of the signature *)

(** C4. Full view, version below [CURRENT_VERSION] (in particular
    [LEGACY_VERSION_1]): the bytes written are the header and the
    transactions and nothing else, whatever [vchBlockSig] holds; read
    back into a new [CBlock] they give the header, the transactions and
    an empty signature. *)
Theorem CBlock_legacy_signature_omitted params (b : CBlock) (rest : list byte) :
  Roundtrips CTransaction_codec ->
  Z.land (GetType params) (Z.lor SER_GETHASH SER_BLOCKHEADERONLY) = 0 ->
  Representable CBlockHeader_codec (header b) ->
  Representable (vector_codec CTransaction_codec) (vtx b) ->
  nVersion (header b) < CURRENT_VERSION ->
  CBlock_Serialize params b
    = CBlockHeader_Serialize params (header b)
      ++ Serialize (vector_codec CTransaction_codec) params (vtx b)
  /\ exists b',
       CBlock_Unserialize params CBlock_new (CBlock_Serialize params b ++ rest)
         = Some (b', rest)
       /\ header b' = header b
       /\ vtx b' = vtx b
       /\ vchBlockSig b' = [].
Proof.
  intros Htx Hview Hhdr Hvtx Hleg.
  assert (Hcur : (CURRENT_VERSION <=? nVersion (header b)) = false)
    by (apply Z.leb_gt; exact Hleg).
  split.
  - unfold CBlock_Serialize. apply Z.eqb_eq in Hview.
    rewrite Hview, Hcur, app_nil_r. reflexivity.
  - exists (full_view_decoded b CBlock_new). split.
    + apply CBlock_Decodes_full; try assumption. intros Hge. lia.
    + cbn [header vtx vchBlockSig full_view_decoded].
      rewrite Hcur. repeat split.
Qed.

(** ** Malformed streams *)

(** C9, as the code has it. Full view: a stream that stops before the
    end of a block's encoding makes the decoder throw, and so does a
    stream that ends after the transactions when the version asks for a
    signature; but the decoder reads the fields the version licenses and
    stops: bytes that follow them (a signature after a legacy block, or
    anything else) are left in the stream and the decoding succeeds. *)
Theorem CBlock_Unserialize_truncated_or_trailing params (b this : CBlock) :
  Lawful CTransaction_codec ->
  Z.land (GetType params) (Z.lor SER_GETHASH SER_BLOCKHEADERONLY) = 0 ->
  CBlock_Representable b ->
  (forall p, strict_prefix p (CBlock_Serialize params b) ->
             CBlock_Unserialize params this p = None)
  /\ (CURRENT_VERSION <= nVersion (header b) ->
      CBlock_Unserialize params this
        (CBlockHeader_Serialize params (header b)
         ++ Serialize (vector_codec CTransaction_codec) params (vtx b)) = None)
  /\ (forall trailing, exists b',
        CBlock_Unserialize params this (CBlock_Serialize params b ++ trailing)
          = Some (b', trailing)
        /\ header b' = header b /\ vtx b' = vtx b).
Proof.
  intros Htx Hview (Hhdr & Hvtx & Hsig).
  destruct (CBlock_Encodes_full params b this Htx Hview Hhdr Hvtx (fun _ => Hsig))
    as [Hdec Htrunc].
  split; [exact Htrunc | split].
  - intros Hcur. apply Htrunc.
    exists (Serialize bytes_codec params (vchBlockSig b)). split.
    + apply WriteCompactSize_nonempty_app.
    + unfold CBlock_Serialize. apply Z.eqb_eq in Hview. rewrite Hview.
      apply Z.leb_le in Hcur. rewrite Hcur.
      change (Serialize CBlockHeader_codec params (header b))
        with (CBlockHeader_Serialize params (header b)).
      now rewrite <- !app_assoc.
  - intros trailing. exists (full_view_decoded b this).
    split; [apply Hdec|]. split; reflexivity.
Qed.

End BlockSerialization.

Section BlockHeaderView.
Context {flags : SerializeFlags} {txs : Transactions}.

(** C5. Hash-domain or header-only view: what is written for a block is
    the 80 bytes of its six header fields, with nothing of its
    transactions or signature; and reading any stream into any block
    object, when it succeeds, leaves the object with no transaction and
    no signature.  It succeeds as soon as the stream holds 80 bytes, of
    which it consumes exactly those. *)
Theorem CBlock_header_view_isolated params (b this : CBlock) (s : list byte) :
  Z.land (GetType params) (Z.lor SER_GETHASH SER_BLOCKHEADERONLY) <> 0 ->
  CBlock_Serialize params b = header_memory (header b)
  /\ length (CBlock_Serialize params b) = 80%nat
  /\ (forall b' rest,
        CBlock_Unserialize params this s = Some (b', rest) ->
        vtx b' = [] /\ vchBlockSig b' = [])
  /\ ((80 <= length s)%nat ->
      exists b',
        CBlock_Unserialize params this s = Some (b', skipn 80 s)
        /\ vtx b' = [] /\ vchBlockSig b' = []).
Proof.
  intros Hview.
  rewrite (CBlock_Serialize_header_only params b Hview).
  rewrite (CBlock_Unserialize_header_only params this s Hview).
  split; [apply CBlockHeader_Serialize_memory|].
  split; [apply CBlockHeader_Serialize_length|].
  split.
  - intros b' rest Hdec.
    destruct (CBlockHeader_Unserialize params s) as [[hdr rest']|]; [|discriminate].
    injection Hdec as <- _. split; reflexivity.
  - intros Hlen.
    destruct (CBlockHeader_Unserialize_total params s Hlen) as (hdr & ->).
    eexists. split; [reflexivity|]. split; reflexivity.
Qed.

End BlockHeaderView.

(* ================================================================== *)
(** * [CBlock]: hashes                                                  *)
(* ================================================================== *)

Section BlockHashes.
Context {hashes : HashFunctions} {txs : Transactions}.

Lemma CBlockHeader_fields_eq (h1 h2 : CBlockHeader) :
  nVersion h1 = nVersion h2 ->
  hashPrevBlock h1 = hashPrevBlock h2 ->
  hashMerkleRoot h1 = hashMerkleRoot h2 ->
  nTime h1 = nTime h2 ->
  nBits h1 = nBits h2 ->
  nNonce h1 = nNonce h2 ->
  h1 = h2.
Proof. destruct h1, h2; simpl; congruence. Qed.

Lemma GetBlockHeader_header (b : CBlock) : GetBlockHeader b = header b.
Proof. unfold GetBlockHeader. now destruct (header b). Qed.

(** C1. [GetHash()] is a function of the six header fields alone: two
    blocks that agree on version, previous-block hash, merkle root,
    time, bits and nonce have the same hash, whatever their
    transactions, signature and checked flag; and it is the hash of the
    header that [GetBlockHeader()] extracts. *)
Theorem GetHash_depends_on_header_fields_only (b1 b2 : CBlock) :
  nVersion (header b1) = nVersion (header b2) ->
  hashPrevBlock (header b1) = hashPrevBlock (header b2) ->
  hashMerkleRoot (header b1) = hashMerkleRoot (header b2) ->
  nTime (header b1) = nTime (header b2) ->
  nBits (header b1) = nBits (header b2) ->
  nNonce (header b1) = nNonce (header b2) ->
  CBlock_GetHash b1 = CBlock_GetHash b2
  /\ GetHash (GetBlockHeader b1) = GetHash (GetBlockHeader b2)
  /\ CBlock_GetHash b1 = GetHash (GetBlockHeader b1).
Proof.
  intros Hv Hp Hm Ht Hb Hn.
  pose proof (CBlockHeader_fields_eq _ _ Hv Hp Hm Ht Hb Hn) as Hhdr.
  unfold CBlock_GetHash. rewrite !GetBlockHeader_header, Hhdr.
  repeat split.
Qed.

(** The same, read as a mutation: replacing the transactions, the
    signature and the flag of a block leaves its hash as it was. *)
Lemma GetHash_ignores_body (b : CBlock) vtx' sig' checked' :
  CBlock_GetHash {| header := header b; vtx := vtx'; vchBlockSig := sig';
                    fChecked := checked' |}
  = CBlock_GetHash b.
Proof. reflexivity. Qed.

Lemma GetUint64_low_word (h : Z) : GetUint64 h 0 = h mod 2 ^ 64.
Proof. unfold GetUint64. now rewrite Z.mul_0_r, Z.shiftr_0_r. Qed.

Lemma land_1_bit (z : Z) : Z.land z 1 = z mod 2.
Proof. apply (Z.land_ones z 1). lia. Qed.

(** C8. [GetStakeEntropyBit] returns bit 0 of word 0 of [GetHash()],
    which is 0 or 1 and is the lowest bit of the hash; the time argument,
    the process arguments (so the [-printstakemodifier] switch) and the
    log it writes to have no part in the value returned. *)
Theorem GetStakeEntropyBit_is_low_bit gArgs gArgs' (this : CBlock)
    (nTime nTime' : Z) (log log' : list LogLine) :
  let nEntropyBit := fst (GetStakeEntropyBit gArgs this nTime log) in
  nEntropyBit = Z.land (GetUint64 (CBlock_GetHash this) 0) 1
  /\ (nEntropyBit = 0 \/ nEntropyBit = 1)
  /\ nEntropyBit = Z.b2z (Z.testbit (CBlock_GetHash this) 0)
  /\ fst (GetStakeEntropyBit gArgs' this nTime' log') = nEntropyBit.
Proof.
  cbn zeta. unfold GetStakeEntropyBit. cbn [fst].
  set (h := CBlock_GetHash this).
  assert (Hbit : Z.land (GetUint64 h 0) 1 = h mod 2).
  { rewrite land_1_bit, GetUint64_low_word.
    apply Z.mod_mod_divide. exists (2 ^ 63). reflexivity. }
  pose proof (Z.mod_pos_bound h 2 ltac:(lia)) as Hrange.
  rewrite Hbit, Z.mod_small by lia.
  repeat split.
  - lia.
  - rewrite Z.bit0_mod. reflexivity.
Qed.

(** What logging adds: at most one line, after what was there. *)
Lemma GetStakeEntropyBit_log gArgs (this : CBlock) (nTime : Z) (log : list LogLine) :
  exists lines,
    snd (GetStakeEntropyBit gArgs this nTime log) = log ++ lines
    /\ (length lines <= 1)%nat.
Proof.
  unfold GetStakeEntropyBit. cbn [snd].
  destruct (GetBoolArg gArgs "-printstakemodifier" false).
  - eexists. split; [reflexivity | simpl; lia].
  - exists []. split; [now rewrite app_nil_r | simpl; lia].
Qed.

End BlockHashes.

(* ================================================================== *)
(** * [CBlock]: proof-of-work or proof-of-stake                         *)
(* ================================================================== *)

Section BlockKind.
Context {txs : Transactions}.

(** With two transactions or more the second one decides, and the two
    predicates are each other's negation. *)
Lemma IsProofOfStake_second_transaction (this : CBlock) tx0 tx1 more :
  vtx this = tx0 :: tx1 :: more ->
  IsProofOfStake this = Ok (IsCoinStake tx1)
  /\ IsProofOfWork this = Ok (negb (IsCoinStake tx1)).
Proof.
  intros Hvtx. unfold IsProofOfWork, IsProofOfStake. rewrite Hvtx.
  split; reflexivity.
Qed.

Lemma GetProofOfStake_second_transaction (this : CBlock) tx0 tx1 more :
  vtx this = tx0 :: tx1 :: more ->
  GetProofOfStake this =
    if IsCoinStake tx1 then
      match vin tx1 with
      | txin :: _ => Ok (prevout txin, tx_nTime tx1)
      | [] => UB
      end
    else Ok (COutPoint_null, 0).
Proof.
  intros Hvtx. unfold GetProofOfStake, IsProofOfStake. rewrite Hvtx.
  cbn [vector_index nth_error result_bind length Nat.ltb Nat.leb andb].
  destruct (IsCoinStake tx1); [|reflexivity].
  unfold vector_index. now destruct (vin tx1).
Qed.

(** C2. On a block with exactly one transaction, [IsProofOfStake()]
    evaluates [*vtx[1]], one past the end of the vector, before it looks
    at [vtx.size()]: the call has no defined result, and neither has
    [IsProofOfWork()], which calls it. *)
Theorem IsProofOfStake_single_transaction (this : CBlock) tx0 :
  vtx this = [tx0] ->
  IsProofOfStake this = UB /\ IsProofOfWork this = UB.
Proof.
  intros Hvtx. unfold IsProofOfWork, IsProofOfStake. rewrite Hvtx.
  split; reflexivity.
Qed.

(** C6. On a block with exactly one transaction, [GetProofOfStake()]
    binds [*vtx[1]] first and then calls [IsProofOfStake()]: the call
    has no defined result, where a proof-of-work block should give the
    null outpoint and 0. *)
Theorem GetProofOfStake_single_transaction (this : CBlock) tx0 :
  vtx this = [tx0] -> GetProofOfStake this = UB.
Proof.
  intros Hvtx. unfold GetProofOfStake. rewrite Hvtx. reflexivity.
Qed.

End BlockKind.

(* ================================================================== *)
(** * [CBlockLocator]: serialization                                    *)
(* ================================================================== *)

Section LocatorSerialization.
Context {flags : SerializeFlags}.

(** Four bytes always read as an [int32_t]. *)
Lemma Unserialize_int32_bits params (bs rest : list byte) :
  length bs = 4%nat ->
  Unserialize int32_codec params (bs ++ rest)
    = Some (int32_of_bits (le_combine bs), rest).
Proof.
  intros Hlen. cbn [Unserialize int32_codec]. unfold ser_readdata, bind.
  rewrite <- Hlen, (proj1 (Encodes_read bs) rest). reflexivity.
Qed.

Lemma Serialize_three_hashes params (h0 h1 h2 : Z) :
  Serialize (vector_codec uint256_codec) params [h0; h1; h2]
    = Byte.x03 :: le_split 32 h0 ++ le_split 32 h1 ++ le_split 32 h2.
Proof.
  cbn [Serialize vector_codec uint256_codec Serialize_elements length].
  unfold ser_writedata. rewrite app_nil_r. reflexivity.
Qed.

(** C7. A locator of three hashes is written, in a stream that is not
    in the hash domain, as the stream's protocol version on four bytes,
    the count 3 on one byte and the three hashes on 32 bytes each; in
    the hash domain as the count and the hashes, without the version.
    Read in the same kind of stream, either gives back the three hashes
    in order and leaves what follows. *)
Theorem CBlockLocator_layout_roundtrip params (this : CBlockLocator)
    (h0 h1 h2 : Z) (rest : list byte) :
  0 <= h0 < 2 ^ 256 -> 0 <= h1 < 2 ^ 256 -> 0 <= h2 < 2 ^ 256 ->
  let locator := {| vHave := [h0; h1; h2] |} in
  let counted := Byte.x03 :: le_split 32 h0 ++ le_split 32 h1 ++ le_split 32 h2 in
  (Z.land (GetType params) SER_GETHASH = 0 ->
   CBlockLocator_Serialize params locator = le_split 4 (GetVersion params) ++ counted)
  /\ (Z.land (GetType params) SER_GETHASH <> 0 ->
      CBlockLocator_Serialize params locator = counted)
  /\ CBlockLocator_Unserialize params this
       (CBlockLocator_Serialize params locator ++ rest)
     = Some (locator, rest).
Proof.
  intros H0 H1 H2. cbn zeta.
  assert (Henc : Encodes (Unserialize (vector_codec uint256_codec) params)
                   [h0; h1; h2]
                   (Serialize (vector_codec uint256_codec) params [h0; h1; h2])).
  { apply vector_codec_lawful; [exact uint256_codec_lawful|].
    split; [unfold MAX_SIZE; simpl; lia|].
    repeat (apply Forall_cons; [assumption|]). apply Forall_nil. }
  unfold CBlockLocator_Serialize, CBlockLocator_Unserialize.
  cbn [vHave]. rewrite <- Serialize_three_hashes with (params := params).
  destruct (Z.eqb_spec (Z.land (GetType params) SER_GETHASH) 0) as [Hwire | Hhash].
  - split; [reflexivity|]. split; [contradiction|].
    unfold bind. cbn [Serialize int32_codec]. unfold ser_writedata.
    rewrite <- app_assoc, Unserialize_int32_bits by apply length_le_split.
    rewrite (proj1 Henc rest). reflexivity.
  - split; [contradiction|]. split; [reflexivity|].
    unfold bind, ret. cbn [app].
    rewrite (proj1 Henc rest). reflexivity.
Qed.

(** C10. Outside the hash domain the decoder reads the four bytes of
    the version into a local and drops it: two streams that differ only
    in the version they start with decode alike (same locator, same
    remaining stream, or both fail). *)
Theorem CBlockLocator_Unserialize_drops_version params (this : CBlockLocator)
    (nVersion1 nVersion2 : Z) (body : list byte) :
  Z.land (GetType params) SER_GETHASH = 0 ->
  CBlockLocator_Unserialize params this (le_split 4 nVersion1 ++ body)
  = CBlockLocator_Unserialize params this (le_split 4 nVersion2 ++ body).
Proof.
  intros Hwire. unfold CBlockLocator_Unserialize, bind.
  apply Z.eqb_eq in Hwire. rewrite Hwire.
  rewrite !Unserialize_int32_bits by apply length_le_split.
  reflexivity.
Qed.

End LocatorSerialization.

(* ================================================================== *)
(** * [CBlockHeader]: the 80 bytes                                      *)
(* ================================================================== *)

Section HeaderBytes.

(** X1. A header whose fields fit their widths (a negative version
    included) is read back from the bytes it was written to, in a stream
    of any type and version, and what follows it is left in the stream. *)
Theorem CBlockHeader_roundtrip params (h : CBlockHeader) (rest : list byte) :
  Representable CBlockHeader_codec h ->
  CBlockHeader_Unserialize params (CBlockHeader_Serialize params h ++ rest)
    = Some (h, rest).
Proof. intros Hh. apply (CBlockHeader_codec_lawful params h Hh). Qed.

(** X2. Reading a header throws exactly when the stream holds fewer than
    80 bytes: no content of the 80 bytes is ever refused. *)
Theorem CBlockHeader_Unserialize_fails_iff_short params (s : list byte) :
  CBlockHeader_Unserialize params s = None <-> (length s < 80)%nat.
Proof.
  split.
  - intros Hnone.
    destruct (Nat.lt_ge_cases (length s) 80) as [Hlt | Hge]; [exact Hlt|].
    destruct (CBlockHeader_Unserialize_total params s Hge) as (h & Hh).
    congruence.
  - apply CBlockHeader_Unserialize_short.
Qed.

Lemma CBlockHeader_Unserialize_inv params (s : list byte) h rest :
  CBlockHeader_Unserialize params s = Some (h, rest) ->
  s = CBlockHeader_Serialize params h ++ rest
  /\ Representable CBlockHeader_codec h.
Proof.
  intros Hdec.
  assert (Hlen : (80 <= length s)%nat).
  { destruct (Nat.lt_ge_cases (length s) 80) as [Hlt | Hge]; [|exact Hge].
    rewrite (CBlockHeader_Unserialize_short params s Hlt) in Hdec. discriminate. }
  destruct (CBlockHeader_Serialize_onto params (firstn 80 s)) as (h' & Hh' & Henc).
  { rewrite length_firstn. lia. }
  pose proof (proj1 (CBlockHeader_codec_lawful params h' Hh') (skipn 80 s)) as Hdec'.
  change (Serialize CBlockHeader_codec params h')
    with (CBlockHeader_Serialize params h') in Hdec'.
  change (Unserialize CBlockHeader_codec params)
    with (CBlockHeader_Unserialize params) in Hdec'.
  rewrite Henc, firstn_skipn, Hdec in Hdec'.
  injection Hdec' as -> ->.
  split; [|exact Hh'].
  now rewrite Henc, firstn_skipn.
Qed.

(** X3. Reading then writing gives the bytes back: when a header is read
    from a stream, the stream was the serialization of that header
    followed by what is left, 80 bytes were consumed, and the fields
    read fit their widths. *)
Theorem CBlockHeader_Unserialize_canonical params (s : list byte) h rest :
  CBlockHeader_Unserialize params s = Some (h, rest) ->
  s = CBlockHeader_Serialize params h ++ rest
  /\ rest = skipn 80 s
  /\ Representable CBlockHeader_codec h.
Proof.
  intros Hdec.
  destruct (CBlockHeader_Unserialize_inv params s h rest Hdec) as [Hs Hrep].
  split; [exact Hs | split; [|exact Hrep]].
  rewrite Hs at 1.
  rewrite skipn_app, CBlockHeader_Serialize_length, Nat.sub_diag, skipn_O.
  rewrite skipn_all2 by (rewrite CBlockHeader_Serialize_length; lia).
  reflexivity.
Qed.

(** X4. [IsNull()] on a header read from a stream looks at the four
    bytes at offset 72, where [nBits] lies after the version, the two
    hashes and the time: the header is null iff they are all zero. *)
Theorem CBlockHeader_IsNull_wire params (s : list byte) h rest :
  CBlockHeader_Unserialize params s = Some (h, rest) ->
  CBlockHeader_IsNull h = true <-> firstn 4 (skipn 72 s) = repeat Byte.x00 4.
Proof.
  intros Hdec.
  destruct (CBlockHeader_Unserialize_inv params s h rest Hdec)
    as [Hs (_ & _ & _ & _ & Hbits & _)].
  assert (Hfield : firstn 4 (skipn 72 s) = le_split 4 (nBits h)).
  { rewrite Hs. unfold CBlockHeader_Serialize.
    cbn [Serialize int32_codec uint32_codec uint256_codec]. unfold ser_writedata.
    rewrite <- !app_assoc.
    rewrite (app_assoc (le_split 4 (nVersion h))), (app_assoc (_ ++ _)),
      (app_assoc ((_ ++ _) ++ _)).
    rewrite skipn_app, skipn_all2
      by (rewrite !length_app, !length_le_split; lia).
    rewrite !length_app, !length_le_split. cbn [app Nat.add Nat.sub skipn].
    rewrite firstn_app, length_le_split, Nat.sub_diag, firstn_O, app_nil_r.
    apply firstn_all2. rewrite length_le_split. lia. }
  rewrite Hfield. unfold CBlockHeader_IsNull. rewrite Z.eqb_eq.
  cbn [Representable uint32_codec] in Hbits.
  split.
  - intros ->. reflexivity.
  - intros Hzero. apply (f_equal le_combine) in Hzero.
    rewrite le_combine_split, le_combine_0, Z.mod_small in Hzero by exact Hbits.
    exact Hzero.
Qed.

End HeaderBytes.

(* ================================================================== *)
(** * [CBlock]: header, hash and views together                         *)
(* ================================================================== *)

Section BlockHeaderAndHash.
Context {flags : SerializeFlags} {hashes : HashFunctions} {txs : Transactions}.

Lemma firstn_80_header params (h : CBlockHeader) (body : list byte) :
  firstn 80 (CBlockHeader_Serialize params h ++ body) = header_memory h.
Proof.
  rewrite firstn_app, CBlockHeader_Serialize_length, Nat.sub_diag, firstn_O, app_nil_r.
  rewrite firstn_all2 by (rewrite CBlockHeader_Serialize_length; lia).
  apply CBlockHeader_Serialize_memory.
Qed.

(** X5. In every view, the first 80 bytes a block is written to are the
    bytes [GetHash()] and [GetPoWHash()] hash: the identity hash of a
    block can be computed from the start of any of its serializations. *)
Theorem GetHash_of_serialized_prefix params (b : CBlock) :
  CBlock_GetHash b = Hash (firstn 80 (CBlock_Serialize params b))
  /\ GetPoWHash (header b) = scrypt_1024_1_1_256 (firstn 80 (CBlock_Serialize params b)).
Proof.
  unfold CBlock_Serialize.
  change (Serialize CBlockHeader_codec params (header b))
    with (CBlockHeader_Serialize params (header b)).
  rewrite firstn_80_header. split; reflexivity.
Qed.

(** X6. [CBlock(header)] and [GetBlockHeader()]: the block built from a
    header gives that header back and has no transaction, no signature
    and a cleared flag; built from the header of a block, it has the hash
    of that block. *)
Theorem CBlock_of_header_GetBlockHeader (h : CBlockHeader) (b : CBlock) :
  GetBlockHeader (CBlock_of_header h) = h
  /\ vtx (CBlock_of_header h) = []
  /\ vchBlockSig (CBlock_of_header h) = []
  /\ fChecked (CBlock_of_header h) = false
  /\ CBlock_GetHash (CBlock_of_header (GetBlockHeader b)) = CBlock_GetHash b.
Proof.
  repeat split.
  unfold CBlock_GetHash. cbn [header CBlock_of_header].
  now rewrite GetBlockHeader_header.
Qed.

(** X7. The flag [fChecked] is memory only: it has no part in what is
    written, and a successful read, in any view, leaves it as it was in
    the object read into. *)
Theorem fChecked_memory_only params (b this : CBlock) (s : list byte) :
  (forall checked,
      CBlock_Serialize params
        {| header := header b; vtx := vtx b; vchBlockSig := vchBlockSig b;
           fChecked := checked |}
      = CBlock_Serialize params b)
  /\ (forall b' rest,
        CBlock_Unserialize params this s = Some (b', rest) ->
        fChecked b' = fChecked this).
Proof.
  split; [reflexivity|].
  intros b' rest. unfold CBlock_Unserialize, bind, ret.
  destruct (Unserialize CBlockHeader_codec params s) as [[hdr s1]|]; [|discriminate].
  destruct (Z.land (GetType params) (Z.lor SER_GETHASH SER_BLOCKHEADERONLY) =? 0).
  - destruct (Unserialize (vector_codec CTransaction_codec) params s1)
      as [[vtx' s2]|]; [|discriminate].
    destruct (CURRENT_VERSION <=? nVersion hdr).
    + destruct (Unserialize bytes_codec params s2) as [[sig' s3]|]; [|discriminate].
      intros H. injection H as <- _. reflexivity.
    + intros H. injection H as <- _. reflexivity.
  - intros H. injection H as <- _. reflexivity.
Qed.

(** X8. A stream written in the full view can be read in the header-only
    (or hash-domain) view: the header is read, the object is left without
    transactions and signature, and the bytes of the transactions and of
    the signature stay in the stream. *)
Theorem full_view_stream_read_header_only full_params header_params
    (b this : CBlock) (rest : list byte) :
  Z.land (GetType full_params) (Z.lor SER_GETHASH SER_BLOCKHEADERONLY) = 0 ->
  Z.land (GetType header_params) (Z.lor SER_GETHASH SER_BLOCKHEADERONLY) <> 0 ->
  Representable CBlockHeader_codec (header b) ->
  exists body,
    CBlock_Serialize full_params b = CBlock_Serialize header_params b ++ body
    /\ CBlock_Unserialize header_params this (CBlock_Serialize full_params b ++ rest)
       = Some ({| header := header b; vtx := []; vchBlockSig := [];
                  fChecked := fChecked this |}, body ++ rest).
Proof.
  intros Hfull Hhdr Hrep.
  rewrite (CBlock_Serialize_header_only header_params b Hhdr).
  rewrite (CBlock_Unserialize_header_only header_params this _ Hhdr).
  unfold CBlock_Serialize. apply Z.eqb_eq in Hfull. rewrite Hfull.
  change (Serialize CBlockHeader_codec full_params (header b))
    with (CBlockHeader_Serialize header_params (header b)).
  eexists. split; [reflexivity|].
  rewrite <- app_assoc.
  match goal with
  | |- context [CBlockHeader_Unserialize _ (_ ++ ?tail)] =>
      pose proof (proj1 (CBlockHeader_codec_lawful header_params (header b) Hrep) tail)
        as Hdec
  end.
  change (Unserialize CBlockHeader_codec header_params)
    with (CBlockHeader_Unserialize header_params) in Hdec.
  change (Serialize CBlockHeader_codec header_params (header b))
    with (CBlockHeader_Serialize header_params (header b)) in Hdec.
  rewrite Hdec. reflexivity.
Qed.

(** X9. In the full view nothing shorter than 81 bytes is a block: the
    header takes 80 bytes and the transaction count at least one. *)
Theorem CBlock_Unserialize_needs_81_bytes params (this : CBlock) (s : list byte) :
  Z.land (GetType params) (Z.lor SER_GETHASH SER_BLOCKHEADERONLY) = 0 ->
  (length s < 81)%nat ->
  CBlock_Unserialize params this s = None.
Proof.
  intros Hview Hlen. unfold CBlock_Unserialize, bind.
  change (Unserialize CBlockHeader_codec params s)
    with (CBlockHeader_Unserialize params s).
  destruct (Nat.lt_ge_cases (length s) 80) as [Hlt | Hge].
  - now rewrite (CBlockHeader_Unserialize_short params s Hlt).
  - destruct (CBlockHeader_Unserialize_total params s Hge) as (h & ->).
    apply Z.eqb_eq in Hview. rewrite Hview.
    assert (Hnil : skipn 80 s = []).
    { apply length_zero_iff_nil. rewrite length_skipn. lia. }
    rewrite Hnil. reflexivity.
Qed.

End BlockHeaderAndHash.

Section BlockWire.
Context {flags : SerializeFlags} {txs : Transactions}.

(** X10. Full view: a block below [CURRENT_VERSION] read into an object
    that already holds a signature keeps that signature; the header and
    the transactions are those of the stream. *)
Theorem CBlock_Unserialize_legacy_into_used_object params (b this : CBlock)
    (rest : list byte) :
  Roundtrips CTransaction_codec ->
  Z.land (GetType params) (Z.lor SER_GETHASH SER_BLOCKHEADERONLY) = 0 ->
  Representable CBlockHeader_codec (header b) ->
  Representable (vector_codec CTransaction_codec) (vtx b) ->
  nVersion (header b) < CURRENT_VERSION ->
  CBlock_Unserialize params this (CBlock_Serialize params b ++ rest)
  = Some ({| header := header b; vtx := vtx b;
             vchBlockSig := vchBlockSig this; fChecked := fChecked this |}, rest).
Proof.
  intros Htx Hview Hhdr Hvtx Hleg.
  rewrite (CBlock_Decodes_full params b this Htx Hview Hhdr Hvtx).
  - unfold full_view_decoded. apply Z.leb_gt in Hleg. now rewrite Hleg.
  - intros Hcur. lia.
Qed.

(** X11. Full view: two blocks that fit the wire format and carry no
    signature below [CURRENT_VERSION] are written to the same bytes only
    if they have the same header, the same transactions and the same
    signature. *)
Theorem CBlock_Serialize_injective params (b1 b2 : CBlock) :
  Roundtrips CTransaction_codec ->
  Z.land (GetType params) (Z.lor SER_GETHASH SER_BLOCKHEADERONLY) = 0 ->
  CBlock_Representable b1 -> signature_licensed b1 ->
  CBlock_Representable b2 -> signature_licensed b2 ->
  CBlock_Serialize params b1 = CBlock_Serialize params b2 ->
  header b1 = header b2 /\ vtx b1 = vtx b2 /\ vchBlockSig b1 = vchBlockSig b2.
Proof.
  intros Htx Hview (Hh1 & Hv1 & Hs1) Hl1 (Hh2 & Hv2 & Hs2) Hl2 Heq.
  pose proof (CBlock_Decodes_full params b1 CBlock_new Htx Hview Hh1 Hv1
                (fun _ => Hs1) []) as H1.
  pose proof (CBlock_Decodes_full params b2 CBlock_new Htx Hview Hh2 Hv2
                (fun _ => Hs2) []) as H2.
  assert (Hd : full_view_decoded b1 CBlock_new = full_view_decoded b2 CBlock_new)
    by (rewrite Heq, H2 in H1; congruence).
  pose proof (f_equal header Hd) as Hh. pose proof (f_equal vtx Hd) as Hv.
  pose proof (f_equal vchBlockSig Hd) as Hs.
  cbn [header vtx vchBlockSig full_view_decoded] in Hh, Hv, Hs.
  split; [exact Hh | split; [exact Hv|]].
  rewrite <- Hh in Hs.
  destruct (Z.leb_spec CURRENT_VERSION (nVersion (header b1))) as [Hcur | Hleg].
  - exact Hs.
  - rewrite (Hl1 Hleg). symmetry. apply Hl2. now rewrite <- Hh.
Qed.

End BlockWire.

Section BlockKindDefined.
Context {txs : Transactions}.

(** X12. [IsProofOfStake()] and [IsProofOfWork()] have a defined result
    exactly on blocks with two transactions or more (an empty block, as
    [CBlock()] builds it, is outside).  There the block is a stake block
    iff [vtx[1]] is a coinstake, and the two answers are opposite. *)
Theorem IsProofOfStake_defined_iff (this : CBlock) :
  (IsProofOfStake this <> UB <-> (2 <= length (vtx this))%nat)
  /\ (IsProofOfWork this <> UB <-> (2 <= length (vtx this))%nat)
  /\ (forall pos,
        IsProofOfStake this = Ok pos ->
        IsProofOfWork this = Ok (negb pos)
        /\ exists tx0 tx1 more,
             vtx this = tx0 :: tx1 :: more /\ pos = IsCoinStake tx1).
Proof.
  unfold IsProofOfWork, IsProofOfStake.
  destruct (vtx this) as [|tx0 [|tx1 more]];
    cbn [vector_index nth_error result_bind length Nat.ltb Nat.leb andb].
  - split; [|split].
    + split; [congruence | lia].
    + split; [congruence | lia].
    + intros pos Hpos. discriminate.
  - split; [|split].
    + split; [congruence | lia].
    + split; [congruence | lia].
    + intros pos Hpos. discriminate.
  - split; [|split].
    + split; [lia | discriminate].
    + split; [lia | discriminate].
    + intros pos Hpos. injection Hpos as <-.
      split; [reflexivity|]. now exists tx0, tx1, more.
Qed.

(** X13. [GetProofOfStake()] on a block with two transactions or more:
    when [vtx[1]] is not a coinstake, the null outpoint and 0; when it is
    one and has an input, the outpoint its first input spends and its
    time; when it is one and has no input, [vin[0]] is out of bounds. *)
Theorem GetProofOfStake_two_transactions (this : CBlock) tx0 tx1 more :
  vtx this = tx0 :: tx1 :: more ->
  (IsCoinStake tx1 = false -> GetProofOfStake this = Ok (COutPoint_null, 0))
  /\ (forall txin ins,
        IsCoinStake tx1 = true -> vin tx1 = txin :: ins ->
        GetProofOfStake this = Ok (prevout txin, tx_nTime tx1))
  /\ (IsCoinStake tx1 = true -> vin tx1 = [] -> GetProofOfStake this = UB).
Proof.
  intros Hvtx. rewrite (GetProofOfStake_second_transaction this tx0 tx1 more Hvtx).
  repeat split.
  - intros ->. reflexivity.
  - intros txin ins -> ->. reflexivity.
  - intros -> ->. reflexivity.
Qed.

End BlockKindDefined.

Section BlockEntropy.
Context {hashes : HashFunctions} {txs : Transactions}.

(** X14. The entropy bit is the lowest bit of the first of the 32 bytes
    of the hash, and it depends on the block through its header only. *)
Theorem GetStakeEntropyBit_first_byte gArgs (b1 b2 : CBlock) (nTime : Z)
    (log : list LogLine) :
  header b1 = header b2 ->
  fst (GetStakeEntropyBit gArgs b1 nTime log)
    = Z.land (byte.unsigned (hd Byte.x00 (le_split 32 (CBlock_GetHash b1)))) 1
  /\ fst (GetStakeEntropyBit gArgs b1 nTime log)
     = fst (GetStakeEntropyBit gArgs b2 nTime log).
Proof.
  intros Hhdr. unfold GetStakeEntropyBit, CBlock_GetHash. cbn [fst].
  rewrite <- Hhdr. split; [|reflexivity].
  set (h := GetHash (header b1)).
  change (le_split 32 h) with (byte.of_Z h :: le_split 31 (Z.shiftr h 8)).
  cbn [hd]. rewrite byte.unsigned_of_Z. unfold byte.wrap.
  rewrite !land_1_bit, GetUint64_low_word.
  rewrite (Z.mod_mod_divide h (2 ^ 64) 2) by (exists (2 ^ 63); reflexivity).
  rewrite (Z.mod_mod_divide h (2 ^ 8) 2) by (exists (2 ^ 7); reflexivity).
  apply Z.mod_small.
  pose proof (Z.mod_pos_bound h 2 ltac:(lia)). lia.
Qed.

End BlockEntropy.

(* ================================================================== *)
(** * [CBlockLocator]: any number of hashes                             *)
(* ================================================================== *)

Section LocatorWire.
Context {flags : SerializeFlags}.

Lemma Encodes_int32_bits params (v : Z) :
  Encodes (Unserialize int32_codec params) (int32_of_bits (v mod 2 ^ 32))
    (le_split 4 v).
Proof.
  cbn [Unserialize int32_codec]. unfold ser_readdata.
  apply Encodes_bind_nil with (a := v mod 2 ^ 32); [|apply Encodes_ret].
  apply Encodes_bind_nil with (a := le_split 4 v).
  - rewrite <- (length_le_split 4 v) at 1. apply Encodes_read.
  - rewrite le_combine_split. apply Encodes_ret.
Qed.

Lemma Serialize_hashes_any_stream params params' (v : list Z) :
  Serialize (vector_codec uint256_codec) params v
  = Serialize (vector_codec uint256_codec) params' v.
Proof.
  cbn [Serialize vector_codec]. f_equal.
  induction v as [|h v IH]; [reflexivity|].
  cbn [Serialize_elements]. now rewrite IH.
Qed.

Lemma length_Serialize_hashes params (v : list Z) :
  length (Serialize_elements uint256_codec params v) = (32 * length v)%nat.
Proof.
  induction v as [|h v IH]; [reflexivity|].
  cbn [Serialize_elements Serialize uint256_codec]. unfold ser_writedata.
  rewrite length_app, length_le_split, IH. cbn [length]. lia.
Qed.

(** X15. A locator of any number of hashes (up to the largest count the
    stream reads) is read back from the bytes it was written to, in the
    hash domain and outside it, whatever the object read into held; cut
    short, the stream makes the decoder throw. *)
Theorem CBlockLocator_roundtrip params (this loc : CBlockLocator) (rest : list byte) :
  Representable (vector_codec uint256_codec) (vHave loc) ->
  CBlockLocator_Unserialize params this (CBlockLocator_Serialize params loc ++ rest)
    = Some (loc, rest)
  /\ (forall p, strict_prefix p (CBlockLocator_Serialize params loc) ->
                CBlockLocator_Unserialize params this p = None).
Proof.
  intros Hrep. destruct loc as [v]. cbn [vHave] in Hrep.
  assert (Henc : Encodes (CBlockLocator_Unserialize params this) {| vHave := v |}
                   (CBlockLocator_Serialize params {| vHave := v |})).
  { unfold CBlockLocator_Unserialize, CBlockLocator_Serialize. cbn [vHave].
    destruct (Z.land (GetType params) SER_GETHASH =? 0).
    - apply Encodes_bind with (a := int32_of_bits (GetVersion params mod 2 ^ 32)).
      + apply Encodes_int32_bits.
      + apply Encodes_bind_nil with (a := v); [|apply Encodes_ret].
        now apply vector_codec_lawful; [exact uint256_codec_lawful|].
    - apply (Encodes_bind _ _ (GetVersion params) _ []); [apply Encodes_ret|].
      apply Encodes_bind_nil with (a := v); [|apply Encodes_ret].
      now apply vector_codec_lawful; [exact uint256_codec_lawful|]. }
  destruct Henc as [Hdec Htrunc]. split; [apply Hdec | exact Htrunc].
Qed.

Lemma length_Serialize_hash_domain hashing (loc : CBlockLocator) :
  Z.land (GetType hashing) SER_GETHASH <> 0 ->
  length (CBlockLocator_Serialize hashing loc)
  = (length (WriteCompactSize (Z.of_nat (length (vHave loc))))
     + 32 * length (vHave loc))%nat.
Proof.
  intros Hhash. unfold CBlockLocator_Serialize.
  apply Z.eqb_neq in Hhash. rewrite Hhash.
  cbn [app Serialize vector_codec].
  now rewrite length_app, length_Serialize_hashes.
Qed.

(** X16. What is written outside the hash domain is the stream's
    version on four bytes followed by what is written in the hash domain:
    the two forms differ by those four bytes and nothing else, and they
    hold 32 bytes per hash after the count. *)
Theorem CBlockLocator_Serialize_views wire hashing (loc : CBlockLocator) :
  Z.land (GetType wire) SER_GETHASH = 0 ->
  Z.land (GetType hashing) SER_GETHASH <> 0 ->
  CBlockLocator_Serialize wire loc
    = le_split 4 (GetVersion wire) ++ CBlockLocator_Serialize hashing loc
  /\ length (CBlockLocator_Serialize hashing loc)
     = (length (WriteCompactSize (Z.of_nat (length (vHave loc))))
        + 32 * length (vHave loc))%nat
  /\ length (CBlockLocator_Serialize wire loc)
     = (4 + length (CBlockLocator_Serialize hashing loc))%nat.
Proof.
  intros Hwire Hhash. unfold CBlockLocator_Serialize.
  apply Z.eqb_eq in Hwire. apply Z.eqb_neq in Hhash. rewrite Hwire, Hhash.
  rewrite (Serialize_hashes_any_stream wire hashing).
  cbn [app Serialize int32_codec vector_codec]. unfold ser_writedata.
  split; [reflexivity | split].
  - rewrite length_app, length_Serialize_hashes. reflexivity.
  - rewrite length_app, length_le_split. reflexivity.
Qed.

(** X17. A locator is null iff, in the hash domain, it is written as
    the single byte 00; [SetNull()] makes any locator null. *)
Theorem CBlockLocator_IsNull_wire hashing (loc : CBlockLocator) :
  Z.land (GetType hashing) SER_GETHASH <> 0 ->
  (CBlockLocator_IsNull loc = true
   <-> CBlockLocator_Serialize hashing loc = [Byte.x00])
  /\ CBlockLocator_IsNull (CBlockLocator_SetNull loc) = true.
Proof.
  intros Hhash. split; [|reflexivity].
  pose proof (length_Serialize_hash_domain hashing loc Hhash) as Hlen.
  unfold CBlockLocator_IsNull.
  destruct loc as [[|h v]]; cbn [vHave] in *.
  - split; [intros _ | reflexivity].
    unfold CBlockLocator_Serialize. apply Z.eqb_neq in Hhash. rewrite Hhash.
    reflexivity.
  - split; [discriminate|]. intros Heq. rewrite Heq in Hlen.
    cbn [length] in Hlen. lia.
Qed.

End LocatorWire.

(* ================================================================== *)
(** * The definitions at work                                           *)
(* ================================================================== *)

#[local] Existing Instance Sample.flags.
#[local] Existing Instance Sample.hashes.
#[local] Existing Instance Sample.txs.

Lemma Sample_Tx_codec_lawful : Lawful Sample.Tx_codec.
Proof.
  intros params [time ins] [Htime Hins].
  cbn [Serialize Unserialize Representable Sample.Tx_codec fst snd] in *.
  apply Encodes_bind with (a := time); [now apply uint32_codec_lawful|].
  apply Encodes_bind_nil with (a := ins); [|apply Encodes_ret].
  now apply vector_codec_lawful; [exact uint32_codec_lawful|].
Qed.

(** Ranges of closed sample values: split down to the comparisons, then
    compute each. *)
Ltac sample_ranges :=
  repeat (hnf; match goal with
               | |- _ /\ _ => split
               | |- Forall _ _ => constructor
               end);
  vm_compute; first [reflexivity | discriminate].

Lemma Sample_stake_block_Representable : CBlock_Representable Sample.stake_block.
Proof. unfold CBlock_Representable. sample_ranges. Qed.

Lemma Sample_work_block_Representable : CBlock_Representable Sample.work_block.
Proof. unfold CBlock_Representable. sample_ranges. Qed.

Example WriteCompactSize_300 :
  WriteCompactSize 300 = [Byte.xfd; Byte.x2c; Byte.x01].
Proof. reflexivity. Qed.

(** A count written longer than needed is refused. *)
Example ReadCompactSize_non_canonical :
  ReadCompactSize [Byte.xfd; Byte.x01; Byte.x00] = None.
Proof. reflexivity. Qed.

Example CBlockHeader_new_IsNull : CBlockHeader_IsNull CBlockHeader_new = true.
Proof. reflexivity. Qed.

Example stake_block_IsProofOfStake :
  IsProofOfStake Sample.stake_block = Ok true
  /\ IsProofOfWork Sample.stake_block = Ok false
  /\ GetProofOfStake Sample.stake_block = Ok (7, 1231006506).
Proof. repeat split. Qed.

(** With the switch on, one line is logged; the bit is the same. *)
Example stake_block_entropy_bit :
  GetStakeEntropyBit (Sample.logging false) Sample.stake_block 5 [] = (1, [])
  /\ GetStakeEntropyBit (Sample.logging true) Sample.stake_block 5 []
     = (1, [{| log_nTime := 5;
               log_hashBlock := CBlock_GetHash Sample.stake_block;
               log_nEntropyBit := 1 |}]).
Proof. split; vm_compute; reflexivity. Qed.

(** The stale signature of a reused object survives a legacy block. *)
Example legacy_block_read_into_signed_object :
  CBlock_Unserialize Sample.network Sample.stake_block
    (CBlock_Serialize Sample.network Sample.work_block)
  = Some (Sample.block Sample.legacy_header [Sample.coinbase] [Byte.xaa; Byte.xbb], []).
Proof. reflexivity. Qed.

(** C9 as the specification states it does not hold: a legacy block
    followed on the wire by a signature, which its version forbids, is
    decoded with success; the signature bytes are neither read nor
    refused, they stay in the stream. *)
Lemma CBlock_Unserialize_accepts_trailing_signature :
  let stream :=
    @CBlock_Serialize Sample.flags Sample.txs Sample.network Sample.work_block
    ++ Serialize bytes_codec Sample.network [Byte.xaa] in
  @CBlock_Unserialize Sample.flags Sample.txs Sample.network CBlock_new stream
    = Some (Sample.work_block, [Byte.x01; Byte.xaa])
  /\ nVersion (header Sample.work_block) < CURRENT_VERSION.
Proof. split; reflexivity. Qed.

Lemma GetHash_depends_on_header_fields_only_witness :
  let b1 := Sample.stake_block in
  let b2 := Sample.block Sample.genesis_header [] [] in
  @CBlock_GetHash Sample.hashes Sample.txs b1 = @CBlock_GetHash Sample.hashes Sample.txs b2
  /\ @GetHash Sample.hashes (GetBlockHeader b1) = @GetHash Sample.hashes (GetBlockHeader b2)
  /\ @CBlock_GetHash Sample.hashes Sample.txs b1 = @GetHash Sample.hashes (GetBlockHeader b1).
Proof.
  apply (@GetHash_depends_on_header_fields_only Sample.hashes Sample.txs
           Sample.stake_block (Sample.block Sample.genesis_header [] []));
    reflexivity.
Defined.

Lemma IsProofOfStake_single_transaction_witness :
  @IsProofOfStake Sample.txs Sample.work_block = UB
  /\ @IsProofOfWork Sample.txs Sample.work_block = UB.
Proof.
  apply (@IsProofOfStake_single_transaction Sample.txs Sample.work_block
           Sample.coinbase).
  reflexivity.
Defined.

Lemma GetProofOfStake_single_transaction_witness :
  @GetProofOfStake Sample.txs Sample.work_block = UB.
Proof.
  apply (@GetProofOfStake_single_transaction Sample.txs Sample.work_block
           Sample.coinbase).
  reflexivity.
Defined.

Lemma CBlock_full_view_roundtrip_witness :
  exists b',
    @CBlock_Unserialize Sample.flags Sample.txs Sample.network CBlock_new
      (CBlock_Serialize Sample.network Sample.stake_block ++ [Byte.xff])
      = Some (b', [Byte.xff])
    /\ header b' = header Sample.stake_block
    /\ vtx b' = vtx Sample.stake_block
    /\ vchBlockSig b' = vchBlockSig Sample.stake_block.
Proof.
  apply (@CBlock_full_view_roundtrip Sample.flags Sample.txs
           Sample.network Sample.stake_block [Byte.xff]).
  - exact (Lawful_Roundtrips _ Sample_Tx_codec_lawful).
  - reflexivity.
  - exact Sample_stake_block_Representable.
  - intros Hlegacy. vm_compute in Hlegacy. discriminate.
Defined.

Lemma CBlock_legacy_signature_omitted_witness :
  let b := Sample.legacy_signed_block in
  @CBlock_Serialize Sample.flags Sample.txs Sample.network b
    = CBlockHeader_Serialize Sample.network (header b)
      ++ Serialize (vector_codec CTransaction_codec) Sample.network (vtx b)
  /\ exists b',
       @CBlock_Unserialize Sample.flags Sample.txs Sample.network CBlock_new
         (CBlock_Serialize Sample.network b ++ [])
         = Some (b', [])
       /\ header b' = header b
       /\ vtx b' = vtx b
       /\ vchBlockSig b' = [].
Proof.
  apply (@CBlock_legacy_signature_omitted Sample.flags Sample.txs
           Sample.network Sample.legacy_signed_block []).
  - exact (Lawful_Roundtrips _ Sample_Tx_codec_lawful).
  - reflexivity.
  - apply Sample_work_block_Representable.
  - apply Sample_work_block_Representable.
  - reflexivity.
Defined.

Lemma CBlock_Unserialize_truncated_or_trailing_witness :
  let b := Sample.stake_block in
  let this := Sample.work_block in
  (forall p, strict_prefix p (@CBlock_Serialize Sample.flags Sample.txs Sample.network b) ->
             CBlock_Unserialize Sample.network this p = None)
  /\ (CURRENT_VERSION <= nVersion (header b) ->
      @CBlock_Unserialize Sample.flags Sample.txs Sample.network this
        (CBlockHeader_Serialize Sample.network (header b)
         ++ Serialize (vector_codec CTransaction_codec) Sample.network (vtx b)) = None)
  /\ (forall trailing, exists b',
        @CBlock_Unserialize Sample.flags Sample.txs Sample.network this
          (CBlock_Serialize Sample.network b ++ trailing)
          = Some (b', trailing)
        /\ header b' = header b /\ vtx b' = vtx b).
Proof.
  apply (@CBlock_Unserialize_truncated_or_trailing Sample.flags Sample.txs
           Sample.network Sample.stake_block Sample.work_block).
  - exact Sample_Tx_codec_lawful.
  - reflexivity.
  - exact Sample_stake_block_Representable.
Defined.

Lemma CBlock_header_view_isolated_witness :
  let b := Sample.stake_block in
  let this := Sample.stake_block in
  let s := @CBlock_Serialize Sample.flags Sample.txs Sample.network Sample.work_block in
  @CBlock_Serialize Sample.flags Sample.txs Sample.gethash b = header_memory (header b)
  /\ length (@CBlock_Serialize Sample.flags Sample.txs Sample.gethash b) = 80%nat
  /\ (forall b' rest,
        @CBlock_Unserialize Sample.flags Sample.txs Sample.gethash this s
          = Some (b', rest) ->
        vtx b' = [] /\ vchBlockSig b' = [])
  /\ ((80 <= length s)%nat ->
      exists b',
        @CBlock_Unserialize Sample.flags Sample.txs Sample.gethash this s
          = Some (b', skipn 80 s)
        /\ vtx b' = [] /\ vchBlockSig b' = []).
Proof.
  apply (@CBlock_header_view_isolated Sample.flags Sample.txs Sample.gethash
           Sample.stake_block Sample.stake_block
           (@CBlock_Serialize Sample.flags Sample.txs Sample.network Sample.work_block)).
  vm_compute. discriminate.
Defined.

Lemma CBlockLocator_layout_roundtrip_witness :
  let locator := {| vHave := [1; 2; 3] |} in
  let counted := Byte.x03 :: le_split 32 1 ++ le_split 32 2 ++ le_split 32 3 in
  (Z.land (GetType Sample.network) (@SER_GETHASH Sample.flags) = 0 ->
   @CBlockLocator_Serialize Sample.flags Sample.network locator
     = le_split 4 (GetVersion Sample.network) ++ counted)
  /\ (Z.land (GetType Sample.network) (@SER_GETHASH Sample.flags) <> 0 ->
      @CBlockLocator_Serialize Sample.flags Sample.network locator = counted)
  /\ @CBlockLocator_Unserialize Sample.flags Sample.network CBlockLocator_new
       (@CBlockLocator_Serialize Sample.flags Sample.network locator ++ [Byte.x2a])
     = Some (locator, [Byte.x2a]).
Proof.
  apply (@CBlockLocator_layout_roundtrip Sample.flags Sample.network
           CBlockLocator_new 1 2 3 [Byte.x2a]); vm_compute; split; congruence.
Defined.

Lemma CBlockLocator_Unserialize_drops_version_witness :
  let body := Serialize (vector_codec uint256_codec) Sample.network [1; 2; 3] in
  @CBlockLocator_Unserialize Sample.flags Sample.network CBlockLocator_new
    (le_split 4 70015 ++ body)
  = @CBlockLocator_Unserialize Sample.flags Sample.network CBlockLocator_new
      (le_split 4 209 ++ body).
Proof.
  apply (@CBlockLocator_Unserialize_drops_version Sample.flags Sample.network
           CBlockLocator_new 70015 209).
  reflexivity.
Defined.

Lemma Sample_genesis_header_Representable :
  Representable CBlockHeader_codec Sample.genesis_header.
Proof. sample_ranges. Qed.

Lemma CBlockHeader_roundtrip_witness :
  CBlockHeader_Unserialize Sample.network
    (CBlockHeader_Serialize Sample.network Sample.genesis_header ++ [Byte.xff])
  = Some (Sample.genesis_header, [Byte.xff]).
Proof.
  apply (CBlockHeader_roundtrip Sample.network Sample.genesis_header [Byte.xff]).
  exact Sample_genesis_header_Representable.
Defined.

Lemma CBlockHeader_Unserialize_canonical_witness :
  let s := CBlockHeader_Serialize Sample.network Sample.legacy_header
           ++ [Byte.x01; Byte.x02] in
  s = CBlockHeader_Serialize Sample.network Sample.legacy_header ++ [Byte.x01; Byte.x02]
  /\ [Byte.x01; Byte.x02] = skipn 80 s
  /\ Representable CBlockHeader_codec Sample.legacy_header.
Proof.
  apply (CBlockHeader_Unserialize_canonical Sample.network
           (CBlockHeader_Serialize Sample.network Sample.legacy_header
            ++ [Byte.x01; Byte.x02])
           Sample.legacy_header [Byte.x01; Byte.x02]).
  reflexivity.
Defined.

Lemma CBlockHeader_IsNull_wire_witness :
  let s := CBlockHeader_Serialize Sample.network CBlockHeader_new in
  CBlockHeader_IsNull CBlockHeader_new = true
  <-> firstn 4 (skipn 72 s) = repeat Byte.x00 4.
Proof.
  apply (CBlockHeader_IsNull_wire Sample.network
           (CBlockHeader_Serialize Sample.network CBlockHeader_new)
           CBlockHeader_new []).
  reflexivity.
Defined.

Lemma full_view_stream_read_header_only_witness :
  exists body,
    CBlock_Serialize Sample.network Sample.stake_block
      = CBlock_Serialize Sample.gethash Sample.stake_block ++ body
    /\ CBlock_Unserialize Sample.gethash Sample.work_block
         (CBlock_Serialize Sample.network Sample.stake_block ++ [])
       = Some ({| header := header Sample.stake_block; vtx := []; vchBlockSig := [];
                  fChecked := fChecked Sample.work_block |}, body ++ []).
Proof.
  apply (@full_view_stream_read_header_only Sample.flags Sample.txs
           Sample.network Sample.gethash Sample.stake_block Sample.work_block []).
  - reflexivity.
  - vm_compute. discriminate.
  - exact Sample_genesis_header_Representable.
Defined.

Lemma CBlock_Unserialize_needs_81_bytes_witness :
  CBlock_Unserialize Sample.network CBlock_new
    (CBlockHeader_Serialize Sample.network Sample.genesis_header) = None.
Proof.
  apply (@CBlock_Unserialize_needs_81_bytes Sample.flags Sample.txs Sample.network
           CBlock_new (CBlockHeader_Serialize Sample.network Sample.genesis_header)).
  - reflexivity.
  - vm_compute. reflexivity.
Defined.

Lemma CBlock_Unserialize_legacy_into_used_object_witness :
  CBlock_Unserialize Sample.network Sample.stake_block
    (CBlock_Serialize Sample.network Sample.work_block ++ [])
  = Some ({| header := header Sample.work_block; vtx := vtx Sample.work_block;
             vchBlockSig := vchBlockSig Sample.stake_block;
             fChecked := fChecked Sample.stake_block |}, []).
Proof.
  apply (@CBlock_Unserialize_legacy_into_used_object Sample.flags Sample.txs
           Sample.network Sample.work_block Sample.stake_block []).
  - exact (Lawful_Roundtrips _ Sample_Tx_codec_lawful).
  - reflexivity.
  - apply Sample_work_block_Representable.
  - apply Sample_work_block_Representable.
  - reflexivity.
Defined.

Lemma CBlock_Serialize_injective_witness :
  let b1 := Sample.stake_block in
  let b2 := @Build_CBlock Sample.txs Sample.genesis_header
              [Sample.coinbase; Sample.coinstake] [Byte.xaa; Byte.xbb] true in
  header b1 = header b2 /\ vtx b1 = vtx b2 /\ vchBlockSig b1 = vchBlockSig b2.
Proof.
  apply (@CBlock_Serialize_injective Sample.flags Sample.txs Sample.network
           Sample.stake_block
           (@Build_CBlock Sample.txs Sample.genesis_header
              [Sample.coinbase; Sample.coinstake] [Byte.xaa; Byte.xbb] true)).
  - exact (Lawful_Roundtrips _ Sample_Tx_codec_lawful).
  - reflexivity.
  - exact Sample_stake_block_Representable.
  - intros Hlegacy. vm_compute in Hlegacy. discriminate.
  - exact Sample_stake_block_Representable.
  - intros Hlegacy. vm_compute in Hlegacy. discriminate.
  - reflexivity.
Defined.

Lemma GetProofOfStake_two_transactions_witness :
  (IsCoinStake Sample.coinstake = false ->
   GetProofOfStake Sample.stake_block = Ok (COutPoint_null, 0))
  /\ (forall txin ins,
        IsCoinStake Sample.coinstake = true -> vin Sample.coinstake = txin :: ins ->
        GetProofOfStake Sample.stake_block = Ok (prevout txin, tx_nTime Sample.coinstake))
  /\ (IsCoinStake Sample.coinstake = true -> vin Sample.coinstake = [] ->
      GetProofOfStake Sample.stake_block = UB).
Proof.
  apply (@GetProofOfStake_two_transactions Sample.txs Sample.stake_block
           Sample.coinbase Sample.coinstake []).
  reflexivity.
Defined.

Lemma GetStakeEntropyBit_first_byte_witness :
  let b1 := Sample.stake_block in
  let b2 := Sample.block Sample.genesis_header [] [] in
  fst (GetStakeEntropyBit (Sample.logging true) b1 5 [])
    = Z.land (byte.unsigned (hd Byte.x00 (le_split 32 (CBlock_GetHash b1)))) 1
  /\ fst (GetStakeEntropyBit (Sample.logging true) b1 5 [])
     = fst (GetStakeEntropyBit (Sample.logging true) b2 5 []).
Proof.
  apply (@GetStakeEntropyBit_first_byte Sample.hashes Sample.txs (Sample.logging true)
           Sample.stake_block (Sample.block Sample.genesis_header [] []) 5 []).
  reflexivity.
Defined.

Lemma CBlockLocator_roundtrip_witness :
  let loc := CBlockLocator_of [5; 4; 3; 2; 1] in
  CBlockLocator_Unserialize Sample.network CBlockLocator_new
    (CBlockLocator_Serialize Sample.network loc ++ [Byte.x2a])
    = Some (loc, [Byte.x2a])
  /\ (forall p, strict_prefix p (CBlockLocator_Serialize Sample.network loc) ->
                CBlockLocator_Unserialize Sample.network CBlockLocator_new p = None).
Proof.
  apply (@CBlockLocator_roundtrip Sample.flags Sample.network CBlockLocator_new
           (CBlockLocator_of [5; 4; 3; 2; 1]) [Byte.x2a]).
  sample_ranges.
Defined.

Lemma CBlockLocator_Serialize_views_witness :
  let loc := CBlockLocator_of [5; 4; 3; 2; 1] in
  CBlockLocator_Serialize Sample.network loc
    = le_split 4 (GetVersion Sample.network) ++ CBlockLocator_Serialize Sample.gethash loc
  /\ length (CBlockLocator_Serialize Sample.gethash loc)
     = (length (WriteCompactSize (Z.of_nat (length (vHave loc))))
        + 32 * length (vHave loc))%nat
  /\ length (CBlockLocator_Serialize Sample.network loc)
     = (4 + length (CBlockLocator_Serialize Sample.gethash loc))%nat.
Proof.
  apply (@CBlockLocator_Serialize_views Sample.flags Sample.network Sample.gethash
           (CBlockLocator_of [5; 4; 3; 2; 1])).
  - reflexivity.
  - vm_compute. discriminate.
Defined.

Lemma CBlockLocator_IsNull_wire_witness :
  (CBlockLocator_IsNull CBlockLocator_new = true
   <-> CBlockLocator_Serialize Sample.gethash CBlockLocator_new = [Byte.x00])
  /\ CBlockLocator_IsNull (CBlockLocator_SetNull CBlockLocator_new) = true.
Proof.
  apply (@CBlockLocator_IsNull_wire Sample.flags Sample.gethash CBlockLocator_new).
  vm_compute. discriminate.
Defined.
